(** * Geometric operations on GeoBox and the GeoboxTiles partitioner

    A shallow embedding of [datacube/utils/geometry/gbox.py].

    Numbers.  Pixel counts, tile indices and slice bounds are Python [int]s
    and are modelled by [Z].  Python [float]s that only flow into a
    transform (affine coefficients, pixel offsets, scale factors) are
    modelled by the real numbers [R]: those statements are about the
    exact-arithmetic reading of the code.  Where a quotient of [float]s is
    turned into an integer by [math.ceil], the rounding decides the result,
    and the quotient is computed on binary64 numbers ([Binary64]):
    [zoom_out], and the constructor of [GeoboxTiles] in [Rounded].  The
    constructor is also given with the quotient taken exactly
    ([GeoboxTiles.__init__]); the two agree as long as the extents of the
    box and of the tiles are below [2^53] ([init_exact_below_2_53]).

    Effects.  A raised exception is a [Raise] result.  [GeoboxTiles] hands out
    references to [GeoBox] objects that live in a heap, so that "the same
    object" and "an equal object" are different statements. *)

From Stdlib Require Import ZArith Reals Lra Lia.
From stdpp Require Import base option strings list gmap.

#[local] Open Scope Z_scope.

(** ** Exceptions *)

Inductive exn : Set := IndexError | ZeroDivisionError | OverflowError.

Inductive result (A : Type) : Type :=
| Ok (x : A)
| Raise (e : exn).

Arguments Ok {A} x.
Arguments Raise {A} e.

(** Sequencing: the first exception raised is the one that propagates. *)
#[global] Instance result_ret : MRet result := fun _ x => Ok x.
#[global] Instance result_bind : MBind result := fun _ _ k m =>
  match m with
  | Ok x => k x
  | Raise e => Raise e
  end.

(** ** Binary64 numbers *)

Module Binary64.

(** Python's [float] where its rounding decides an integer result: a finite
    IEEE 754 binary64 number, written [mant * 2^expo].  An exact quotient
    [a / b] is rounded to the nearest number with a mantissa of 53 bits,
    ties going to the even mantissa; the last place is never below
    [2^-1074], and a result of [2^1024] or more is out of range. *)
Record t : Set := mk { mant : Z; expo : Z }.

Definition prec : Z := 53.

Definition emin : Z := -1074.

(** The least power of two that is too large for a finite number. *)
Definition huge : Z := 2 ^ 1024.

(** [a / (b * 2^e)] as a quotient of two integers. *)
Definition scaled_num (a e : Z) : Z := a * 2 ^ Z.max 0 (- e).

Definition scaled_den (b e : Z) : Z := b * 2 ^ Z.max 0 e.

(** The exponent of the last place kept for [a / b], with [0 < a] and
    [0 < b]: the one that leaves 53 bits before the binary point, unless
    that is below [emin]. *)
Definition last_place (a b : Z) : Z :=
  let e0 := Z.log2 a - Z.log2 b - prec in
  let e1 := if 2 ^ prec <=? scaled_num a e0 / scaled_den b e0
            then e0 + 1 else e0 in
  Z.max e1 emin.

(** The integer nearest to [num / den], the even one of two at the same
    distance. *)
Definition nearest_even (num den : Z) : Z :=
  let m := num / den in
  let r := num mod den in
  if 2 * r <? den then m
  else if den <? 2 * r then m + 1
  else if Z.even m then m else m + 1.

Definition round_pos (a b : Z) : t :=
  let e := last_place a b in
  mk (nearest_even (scaled_num a e) (scaled_den b e)) e.

(** [a / b] rounded, for [0 < b] and [a] of any sign. *)
Definition round (a b : Z) : t :=
  if a =? 0 then mk 0 0
  else let x := round_pos (Z.abs a) b in mk (Z.sgn a * mant x) (expo x).

Definition overflows (x : t) : bool :=
  huge * 2 ^ Z.max 0 (- expo x) <=? Z.abs (mant x) * 2 ^ Z.max 0 (expo x).

(** [float(N)] for an [int]: too large an integer raises. *)
Definition of_int (N : Z) : result t :=
  let x := round N 1 in
  if overflows x then Raise OverflowError else Ok x.

(** The result of a division: a finite number, or an infinity when the
    quotient is out of range. *)
Inductive value : Set :=
| Finite (x : t)
| Infinite.

(** [x / y]: a zero divisor raises. *)
Definition truediv (x y : t) : result value :=
  if mant y =? 0 then Raise ZeroDivisionError
  else
    let a := mant x * Z.sgn (mant y) * 2 ^ Z.max 0 (expo x - expo y) in
    let b := Z.abs (mant y) * 2 ^ Z.max 0 (expo y - expo x) in
    let q := round a b in
    Ok (if overflows q then Infinite else Finite q).

Definition ceil_fin (x : t) : Z :=
  - ((- mant x * 2 ^ Z.max 0 (expo x)) / 2 ^ Z.max 0 (- expo x)).

(** [math.ceil(v)]: an infinity raises. *)
Definition ceil (v : value) : result Z :=
  match v with
  | Finite x => Ok (ceil_fin x)
  | Infinite => Raise OverflowError
  end.

(** The real number a binary64 number stands for. *)
Definition to_R (x : t) : R :=
  (IZR (mant x * 2 ^ Z.max 0 (expo x)) / IZR (2 ^ Z.max 0 (- expo x)))%R.

(** [1.0] *)
Definition one : t := mk 1 0.

End Binary64.

(** ** Affine maps *)

Module Affine.

(** Modelled from the spec: the [affine] package is not part of the sources.
    An affine map is [x' = a*x + b*y + c], [y' = d*x + e*y + f]; it can be
    composed with another map, applied to a point, and built by the named
    constructors [translation], [scale] and [rotation]. *)
Record t : Type := mk { a : R; b : R; c : R; d : R; e : R; f : R }.

Definition identity : t := mk 1 0 0 0 1 0.

Definition translation (xoff yoff : R) : t := mk 1 0 xoff 0 1 yoff.

Definition scale (sx sy : R) : t := mk sx 0 0 0 sy 0.

(** Cosine and sine of an angle given in degrees. *)
Definition cos_sin_deg (deg : R) : R * R :=
  (cos (deg * PI / 180), sin (deg * PI / 180))%R.

(** Counter-clockwise rotation by [angle] degrees about [pivot]. *)
Definition rotation (angle : R) (pivot : R * R) : t :=
  let '(ca, sa) := cos_sin_deg angle in
  let '(px, py) := pivot in
  mk ca (- sa) (px - px * ca + py * sa)
     sa ca (py - px * sa - py * ca).

(** [mul s o] is [s * o]: first [o], then [s]. *)
Definition mul (s o : t) : t :=
  mk (a s * a o + b s * d o) (a s * b o + b s * e o)
     (a s * c o + b s * f o + c s)
     (d s * a o + e s * d o) (d s * b o + e s * e o)
     (d s * c o + e s * f o + f s).

(** [apply s (vx, vy)] is [s * (vx, vy)]. *)
Definition apply (s : t) (p : R * R) : R * R :=
  let '(vx, vy) := p in
  (vx * a s + vy * b s + c s, vx * d s + vy * e s + f s)%R.

End Affine.

Infix "*A" := Affine.mul (at level 40, left associativity).

(** ** GeoBox *)

(** The reference-system tag: opaque, possibly absent. *)
Definition CRS : Type := option string.

(** A Python [slice(start, stop)] with no step. *)
Record slice : Set := mkslice { start : Z; stop : Z }.

Module GeoBox.

(** Modelled from the spec: [_base.GeoBox] is not part of the sources.
    [GeoBox(width, height, affine, crs)] builds an immutable value with
    attributes [shape = (height, width)], [affine] (also read as
    [transform]) and [crs]. *)
Record t : Type := mk { width : Z; height : Z; affine : Affine.t; crs : CRS }.

Definition shape (g : t) : Z * Z := (height g, width g).

Definition transform (g : t) : Affine.t := affine g.

(** Modelled from the spec: region slicing [gbox[row_slice, col_slice]]
    gives a new box covering the pixel rectangle described by the two
    slices, with the transform translated accordingly and the CRS
    unchanged. *)
Definition getitem (g : t) (roi : slice * slice) : t :=
  let '(sr, sc) := roi in
  mk (stop sc - start sc) (stop sr - start sr)
     (affine g *A Affine.translation (IZR (start sc)) (IZR (start sr)))
     (crs g).

End GeoBox.

(** ** Transform functions *)

Definition flipy (gbox : GeoBox.t) : GeoBox.t :=
  let '(H, W) := GeoBox.shape gbox in
  let A := Affine.translation 0 (IZR H) *A Affine.scale 1 (-1) in
  let A := GeoBox.affine gbox *A A in
  GeoBox.mk W H A (GeoBox.crs gbox).

Definition flipx (gbox : GeoBox.t) : GeoBox.t :=
  let '(H, W) := GeoBox.shape gbox in
  let A := Affine.translation (IZR W) 0 *A Affine.scale (-1) 1 in
  let A := GeoBox.affine gbox *A A in
  GeoBox.mk W H A (GeoBox.crs gbox).

Definition translate_pix (gbox : GeoBox.t) (tx ty : R) : GeoBox.t :=
  let '(H, W) := GeoBox.shape gbox in
  let A := GeoBox.affine gbox *A Affine.translation tx ty in
  GeoBox.mk W H A (GeoBox.crs gbox).

(** [W/float(w)]: the quotient of two integers as a float; a zero divisor
    raises. *)
Definition float_div (N n : Z) : result R :=
  if n =? 0 then Raise ZeroDivisionError else Ok (IZR N / IZR n)%R.

Definition zoom_to (gbox : GeoBox.t) (shape : Z * Z) : result GeoBox.t :=
  let '(H, W) := GeoBox.shape gbox in
  let '(h, w) := shape in
  sx ← float_div W w;
  sy ← float_div H h;
  let A := GeoBox.affine gbox *A Affine.scale sx sy in
  Ok (GeoBox.mk w h A (GeoBox.crs gbox)).

Definition rotate (gbox : GeoBox.t) (deg : R) : GeoBox.t :=
  let '(h, w) := GeoBox.shape gbox in
  let c0 := Affine.apply (GeoBox.transform gbox) (IZR w * 0.5, IZR h * 0.5)%R in
  let A := Affine.rotation deg c0 *A GeoBox.transform gbox in
  GeoBox.mk w h A (GeoBox.crs gbox).

(** [pady] defaults to [padx]. *)
Definition pad (gbox : GeoBox.t) (padx : Z) (pady : option Z) : GeoBox.t :=
  let pady := match pady with None => padx | Some pady => pady end in
  let '(H, W) := GeoBox.shape gbox in
  let A := GeoBox.affine gbox
           *A Affine.translation (IZR (- padx)) (IZR (- pady)) in
  GeoBox.mk (W + padx * 2) (H + pady * 2) A (GeoBox.crs gbox).

(** [max(1, ceil(s/factor))], the quotient of the integer [s] by the float
    [factor] being a binary64 number. *)
Definition zoom_out_dim (s : Z) (factor : Binary64.t) : result Z :=
  x ← Binary64.of_int s;
  q ← Binary64.truediv x factor;
  c ← Binary64.ceil q;
  Ok (Z.max 1 c).

Definition zoom_out (gbox : GeoBox.t) (factor : Binary64.t)
  : result GeoBox.t :=
  let '(H0, W0) := GeoBox.shape gbox in
  H ← zoom_out_dim H0 factor;
  W ← zoom_out_dim W0 factor;
  let f := Binary64.to_R factor in
  let A := GeoBox.affine gbox *A Affine.scale f f in
  Ok (GeoBox.mk W H A (GeoBox.crs gbox)).

Definition affine_transform_pix (gbox : GeoBox.t) (transform : Affine.t)
  : GeoBox.t :=
  let '(H, W) := GeoBox.shape gbox in
  let A := GeoBox.affine gbox *A transform in
  GeoBox.mk W H A (GeoBox.crs gbox).

(** ** Objects and references *)

(** [GeoBox] objects live in a heap and are named by references.  Objects
    are immutable, so the heap only ever grows: building a box allocates
    the next free reference. *)
Definition ref : Set := nat.

Definition heap : Type := list GeoBox.t.

Definition alloc (h : heap) (g : GeoBox.t) : ref * heap :=
  (length h, h ++ [g]).

(** ** GeoboxTiles *)

Module GeoboxTiles.

Record t : Type := mk {
  _gbox : GeoBox.t;
  _tile_shape : Z * Z;
  _shape : Z * Z;
  _cache : gmap (Z * Z) ref
}.

(** [math.ceil(float(N)/n)], the quotient taken in exact arithmetic (see
    [Rounded.ceil_div] for the rounded one). *)
Definition ceil_div (N n : Z) : result Z :=
  q ← float_div N n; Ok (Zceil q).

Definition __init__ (box : GeoBox.t) (tile_shape : Z * Z) : result t :=
  let '(N_r, N_c) := GeoBox.shape box in
  let '(n_r, n_c) := tile_shape in
  s_r ← ceil_div N_r n_r;
  s_c ← ceil_div N_c n_c;
  Ok (mk box tile_shape (s_r, s_c) ∅).

Definition shape (self : t) : Z * Z := _shape self.

Definition _slice (i N n : Z) : result slice :=
  let _in := i * n in
  if _in >=? N then Raise IndexError
  else Ok (mkslice _in (Z.min (_in + n) N)).

Definition _idx_to_slice (self : t) (idx : Z * Z) : result (slice * slice) :=
  let '(i_r, i_c) := idx in
  let '(N_r, N_c) := GeoBox.shape (_gbox self) in
  let '(n_r, n_c) := _tile_shape self in
  ir ← _slice i_r N_r n_r;
  ic ← _slice i_c N_c n_c;
  Ok (ir, ic).

(** [dict.setdefault(key, default)]: the entry already stored under [key]
    wins; otherwise [default] is stored and returned. *)
Definition setdefault (m : gmap (Z * Z) ref) (key : Z * Z) (default : ref)
  : ref * gmap (Z * Z) ref :=
  match m !! key with
  | Some v => (v, m)
  | None => (default, <[key := default]> m)
  end.

(** [self[idx]]: the result (a reference to the tile, or the exception), and
    the partitioner and the heap after the call. *)
Definition __getitem__ (self : t) (h : heap) (idx : Z * Z)
  : result ref * t * heap :=
  match _cache self !! idx with
  | Some sub_gbox => (Ok sub_gbox, self, h)
  | None =>
      match _idx_to_slice self idx with
      | Raise e => (Raise e, self, h)
      | Ok roi =>
          let '(fresh, h') := alloc h (GeoBox.getitem (_gbox self) roi) in
          let '(sub_gbox, cache') := setdefault (_cache self) idx fresh in
          (Ok sub_gbox,
           mk (_gbox self) (_tile_shape self) (_shape self) cache', h')
      end
  end.

(** A caller that looks up the indices of [idxs] one after the other, going
    on after an index that raised. *)
Fixpoint lookups (idxs : list (Z * Z)) (self : t) (h : heap) : t * heap :=
  match idxs with
  | [] => (self, h)
  | idx :: rest =>
      let '(_, self', h') := __getitem__ self h idx in
      lookups rest self' h'
  end.

(** [idx] lies in [[(0,0) -> .shape)]. *)
Definition in_range (self : t) (idx : Z * Z) : bool :=
  let '(i_r, i_c) := idx in
  let '(s_r, s_c) := shape self in
  (0 <=? i_r) && (i_r <? s_r) && (0 <=? i_c) && (i_c <? s_c).

End GeoboxTiles.

(** ** The constructor as Python computes it *)

Module Rounded.

(** [math.ceil(float(N)/n)] with the conversions and the quotient rounded to
    binary64 numbers. *)
Definition ceil_div (N n : Z) : result Z :=
  x ← Binary64.of_int N;
  y ← Binary64.of_int n;
  q ← Binary64.truediv x y;
  Binary64.ceil q.

Definition __init__ (box : GeoBox.t) (tile_shape : Z * Z)
  : result GeoboxTiles.t :=
  let '(N_r, N_c) := GeoBox.shape box in
  let '(n_r, n_c) := tile_shape in
  s_r ← ceil_div N_r n_r;
  s_c ← ceil_div N_c n_c;
  Ok (GeoboxTiles.mk box tile_shape (s_r, s_c) ∅).

End Rounded.

(** Pixel membership in a slice, and the number of pixels it spans. *)
Definition in_slice (s : slice) (p : Z) : bool :=
  (start s <=? p) && (p <? stop s).

Definition slice_len (s : slice) : Z := stop s - start s.

(** ** States of a partitioner *)

(** [self] and [h] are what a partitioner built from [box] and [tile_shape]
    and the heap have become after some sequence of lookups. *)
Definition reachable (box : GeoBox.t) (tile_shape : Z * Z)
    (self : GeoboxTiles.t) (h : heap) : Prop :=
  exists self0 h0 idxs,
    GeoboxTiles.__init__ box tile_shape = Ok self0
    /\ GeoboxTiles.lookups idxs self0 h0 = (self, h).

(** Every cached reference names the box that slicing the source box afresh
    for that index would give. *)
Definition cache_inv (self : GeoboxTiles.t) (h : heap) : Prop :=
  forall idx r,
    GeoboxTiles._cache self !! idx = Some r ->
    exists roi,
      GeoboxTiles._idx_to_slice self idx = Ok roi
      /\ h !! r = Some (GeoBox.getitem (GeoboxTiles._gbox self) roi).

(** Two partitioners that differ at most in their cache. *)
Definition same_params (self self' : GeoboxTiles.t) : Prop :=
  GeoboxTiles._gbox self' = GeoboxTiles._gbox self
  /\ GeoboxTiles._tile_shape self' = GeoboxTiles._tile_shape self
  /\ GeoboxTiles._shape self' = GeoboxTiles._shape self.

(** The three ways a lookup of [idx] in [self] with heap [h] can go: the
    cache has it, the slice computation raises, or a new tile is built and
    cached. *)
Inductive getitem_outcome (self : GeoboxTiles.t) (h : heap) (idx : Z * Z)
  : result ref * GeoboxTiles.t * heap -> Prop :=
| outcome_hit r :
    GeoboxTiles._cache self !! idx = Some r ->
    getitem_outcome self h idx (Ok r, self, h)
| outcome_raise e :
    GeoboxTiles._cache self !! idx = None ->
    GeoboxTiles._idx_to_slice self idx = Raise e ->
    getitem_outcome self h idx (Raise e, self, h)
| outcome_fill roi :
    GeoboxTiles._cache self !! idx = None ->
    GeoboxTiles._idx_to_slice self idx = Ok roi ->
    getitem_outcome self h idx
      (Ok (length h),
       GeoboxTiles.mk (GeoboxTiles._gbox self) (GeoboxTiles._tile_shape self)
         (GeoboxTiles._shape self)
         (<[idx := length h]> (GeoboxTiles._cache self)),
       h ++ [GeoBox.getitem (GeoboxTiles._gbox self) roi]).

(** The tiles a partitioner has built on top of a heap that held [n0]
    objects: one new object per cached index, each cached under one index
    only. *)
Definition refs_inv (n0 : nat) (self : GeoboxTiles.t) (h : heap) : Prop :=
  length h = (n0 + size (GeoboxTiles._cache self))%nat
  /\ (forall idx r, GeoboxTiles._cache self !! idx = Some r ->
                    (n0 <= r < length h)%nat)
  /\ (forall i j r, GeoboxTiles._cache self !! i = Some r ->
                    GeoboxTiles._cache self !! j = Some r -> i = j).

(** ** A concrete scenario *)

(** A source box of shape [(100, 100)] cut into tiles of shape [(30, 30)]:
    four rows and four columns of tiles, nothing looked up yet. *)
Definition box100 : GeoBox.t := GeoBox.mk 100 100 Affine.identity None.

Definition tiles100 : GeoboxTiles.t := GeoboxTiles.mk box100 (30, 30) (4, 4) ∅.

(** * Properties of the transform functions *)

Section AffineFacts.

#[local] Open Scope R_scope.

Lemma affine_eq (x y : Affine.t) :
  Affine.a x = Affine.a y -> Affine.b x = Affine.b y ->
  Affine.c x = Affine.c y -> Affine.d x = Affine.d y ->
  Affine.e x = Affine.e y -> Affine.f x = Affine.f y -> x = y.
Proof. destruct x, y; simpl; intros; subst; reflexivity. Qed.

(** The product of two maps is their composition as functions. *)
Lemma apply_mul (s o : Affine.t) (p : R * R) :
  Affine.apply (s *A o) p = Affine.apply s (Affine.apply o p).
Proof. destruct p as [vx vy]; simpl; f_equal; ring. Qed.

Lemma mul_assoc (x y z : Affine.t) : x *A y *A z = x *A (y *A z).
Proof. apply affine_eq; simpl; ring. Qed.

Lemma mul_identity_r (x : Affine.t) : x *A Affine.identity = x.
Proof. apply affine_eq; simpl; ring. Qed.

Lemma translation_translation (tx1 ty1 tx2 ty2 : R) :
  Affine.translation tx1 ty1 *A Affine.translation tx2 ty2
  = Affine.translation (tx1 + tx2) (ty1 + ty2).
Proof. apply affine_eq; simpl; ring. Qed.

(** Mirroring a pixel axis of length [n] twice is the identity. *)
Lemma mirror_x_twice (n : R) :
  let M := Affine.translation n 0 *A Affine.scale (-1) 1 in
  M *A M = Affine.identity.
Proof. apply affine_eq; simpl; ring. Qed.

Lemma mirror_y_twice (n : R) :
  let M := Affine.translation 0 n *A Affine.scale 1 (-1) in
  M *A M = Affine.identity.
Proof. apply affine_eq; simpl; ring. Qed.

(** A rotation leaves its pivot where it is. *)
Lemma rotation_fixes_pivot (deg : R) (pivot : R * R) :
  Affine.apply (Affine.rotation deg pivot) pivot = pivot.
Proof.
  destruct pivot as [px py]. unfold Affine.rotation, Affine.cos_sin_deg.
  simpl. f_equal; ring.
Qed.

End AffineFacts.

(** C7. Flipping twice along the same axis gives back the box: the shape,
    the transform (in exact arithmetic) and the CRS of [flipx (flipx b)] and
    of [flipy (flipy b)] are those of [b]. *)
Theorem flip_involution (b : GeoBox.t) :
  (GeoBox.shape (flipx (flipx b)) = GeoBox.shape b
   /\ GeoBox.affine (flipx (flipx b)) = GeoBox.affine b
   /\ flipx (flipx b) = b)
  /\ (GeoBox.shape (flipy (flipy b)) = GeoBox.shape b
      /\ GeoBox.affine (flipy (flipy b)) = GeoBox.affine b
      /\ flipy (flipy b) = b).
Proof.
  destruct b as [W H A crs].
  assert (Hx : flipx (flipx (GeoBox.mk W H A crs)) = GeoBox.mk W H A crs).
  { unfold flipx; simpl. f_equal.
    rewrite mul_assoc. pose proof (mirror_x_twice (IZR W)) as Hm.
    simpl in Hm. rewrite Hm. apply mul_identity_r. }
  assert (Hy : flipy (flipy (GeoBox.mk W H A crs)) = GeoBox.mk W H A crs).
  { unfold flipy; simpl. f_equal.
    rewrite mul_assoc. pose proof (mirror_y_twice (IZR H)) as Hm.
    simpl in Hm. rewrite Hm. apply mul_identity_r. }
  rewrite Hx, Hy. repeat split.
Qed.

(** C8. Two pixel translations in a row are the translation by the summed
    offsets: same shape, same CRS and, in exact arithmetic, the same
    transform. *)
Theorem translate_pix_compose (b : GeoBox.t) (tx1 ty1 tx2 ty2 : R) :
  let two := translate_pix (translate_pix b tx1 ty1) tx2 ty2 in
  let one := translate_pix b (tx1 + tx2) (ty1 + ty2) in
  GeoBox.shape two = GeoBox.shape one
  /\ GeoBox.crs two = GeoBox.crs one
  /\ GeoBox.affine two = GeoBox.affine one
  /\ GeoBox.shape one = GeoBox.shape b
  /\ GeoBox.crs one = GeoBox.crs b.
Proof.
  destruct b as [W H A crs]. unfold translate_pix; simpl.
  repeat split. rewrite mul_assoc, translation_translation. reflexivity.
Qed.

(** C5. [rotate] keeps the shape and the CRS, and its transform is the
    rotation about [center] multiplied on the left of the box's transform,
    where [center] is the image of the pixel point [(W/2, H/2)]: a pixel is
    first sent to the world by the old transform and then turned about the
    centre of the footprint, which stays where it was. *)
Theorem rotate_spec (b : GeoBox.t) (deg : R) :
  let '(H, W) := GeoBox.shape b in
  let A := GeoBox.transform b in
  let center := Affine.apply A (IZR W / 2, IZR H / 2)%R in
  GeoBox.shape (rotate b deg) = (H, W)
  /\ GeoBox.crs (rotate b deg) = GeoBox.crs b
  /\ GeoBox.transform (rotate b deg) = Affine.rotation deg center *A A
  /\ (forall p, Affine.apply (GeoBox.transform (rotate b deg)) p
                = Affine.apply (Affine.rotation deg center) (Affine.apply A p))
  /\ Affine.apply (GeoBox.transform (rotate b deg)) (IZR W / 2, IZR H / 2)%R
     = center.
Proof.
  destruct b as [W H A crs]. unfold rotate, GeoBox.transform, GeoBox.shape.
  cbn [GeoBox.affine GeoBox.height GeoBox.width GeoBox.crs].
  replace (IZR W * 0.5)%R with (IZR W / 2)%R by lra.
  replace (IZR H * 0.5)%R with (IZR H / 2)%R by lra.
  split; [reflexivity|]. split; [reflexivity|]. split; [reflexivity|].
  split; [intros p; apply apply_mul|].
  rewrite apply_mul. apply rotation_fixes_pivot.
Qed.



(** * Properties of the tile partitioner *)

(** ** The ceiling of a real quotient, in integer terms *)

(** For a positive divisor, [math.ceil(float(N)/n)] is the least [k] with
    [N <= k * n]. *)
Lemma Zceil_div_spec (N n : Z) :
  0 < n ->
  let k := Zceil (IZR N / IZR n) in (k - 1) * n < N <= k * n.
Proof.
  intros Hn k.
  assert (Hn' : (0 < IZR n)%R) by (apply IZR_lt; lia).
  destruct (Zceil_bound (IZR N / IZR n)) as [Hlo Hhi]. fold k in Hlo, Hhi.
  assert (HN : (IZR N / IZR n * IZR n = IZR N)%R) by (field; lra).
  split.
  - apply lt_IZR. rewrite mult_IZR, minus_IZR. simpl. nra.
  - apply le_IZR. rewrite mult_IZR. nra.
Qed.

Lemma Zceil_div_Z (N n : Z) :
  0 < n -> Zceil (IZR N / IZR n) = (N + n - 1) / n.
Proof.
  intros Hn. pose proof (Zceil_div_spec N n Hn) as Hk. simpl in Hk.
  set (k := Zceil (IZR N / IZR n)) in *.
  apply Z.div_unique_pos with (r := N + n - 1 - n * k); lia.
Qed.

Lemma ceil_div_pos (N n : Z) :
  0 < n -> GeoboxTiles.ceil_div N n = Ok ((N + n - 1) / n).
Proof.
  intros Hn. unfold GeoboxTiles.ceil_div, float_div.
  destruct (Z.eqb_spec n 0) as [?|_]; [lia|]. simpl.
  rewrite Zceil_div_Z by assumption. reflexivity.
Qed.

Lemma ceil_div_zero (N : Z) : GeoboxTiles.ceil_div N 0 = Raise ZeroDivisionError.
Proof. reflexivity. Qed.

Lemma init_pos (box : GeoBox.t) (th tw : Z) :
  0 < th -> 0 < tw ->
  GeoboxTiles.__init__ box (th, tw)
  = Ok (GeoboxTiles.mk box (th, tw)
          ((GeoBox.height box + th - 1) / th, (GeoBox.width box + tw - 1) / tw)
          ∅).
Proof.
  intros Hth Htw. unfold GeoboxTiles.__init__. simpl.
  rewrite (ceil_div_pos _ th Hth). simpl.
  rewrite (ceil_div_pos _ tw Htw). reflexivity.
Qed.

(** ** One axis *)

Section OneAxis.

Variables i N n : Z.

Lemma slice_Raise : i * n >= N -> GeoboxTiles._slice i N n = Raise IndexError.
Proof.
  intros H. unfold GeoboxTiles._slice.
  destruct (Z.geb_spec (i * n) N); [reflexivity | lia].
Qed.

Lemma slice_Ok :
  i * n < N ->
  GeoboxTiles._slice i N n = Ok (mkslice (i * n) (Z.min (i * n + n) N)).
Proof.
  intros H. unfold GeoboxTiles._slice.
  destruct (Z.geb_spec (i * n) N); [lia | reflexivity].
Qed.

Lemma slice_cases :
  (i * n >= N /\ GeoboxTiles._slice i N n = Raise IndexError)
  \/ (i * n < N
      /\ GeoboxTiles._slice i N n = Ok (mkslice (i * n) (Z.min (i * n + n) N))).
Proof.
  destruct (Z_lt_ge_dec (i * n) N); [right | left];
    auto using slice_Raise, slice_Ok.
Qed.

End OneAxis.

(** An index below the ceiling starts inside the axis; one at or above it
    starts outside. *)
Lemma below_ceil_inside (i N n : Z) :
  0 < n -> 0 <= i < (N + n - 1) / n -> i * n < N.
Proof.
  intros Hn [_ Hi]. rewrite <- (Zceil_div_Z N n Hn) in Hi.
  pose proof (Zceil_div_spec N n Hn) as Hk. simpl in Hk. nia.
Qed.

Lemma above_ceil_outside (i N n : Z) :
  0 < n -> (N + n - 1) / n <= i -> i * n >= N.
Proof.
  intros Hn Hi. rewrite <- (Zceil_div_Z N n Hn) in Hi.
  pose proof (Zceil_div_spec N n Hn) as Hk. simpl in Hk. nia.
Qed.

(** ** Index to slices *)

Lemma idx_to_slice_unfold (self : GeoboxTiles.t) (i_r i_c : Z) :
  GeoboxTiles._idx_to_slice self (i_r, i_c)
  = (ir ← GeoboxTiles._slice i_r (GeoBox.height (GeoboxTiles._gbox self))
                                (GeoboxTiles._tile_shape self).1;
     ic ← GeoboxTiles._slice i_c (GeoBox.width (GeoboxTiles._gbox self))
                                (GeoboxTiles._tile_shape self).2;
     Ok (ir, ic)).
Proof.
  unfold GeoboxTiles._idx_to_slice, GeoBox.shape.
  destruct (GeoboxTiles._tile_shape self); reflexivity.
Qed.

Lemma idx_to_slice_params (self self' : GeoboxTiles.t) (idx : Z * Z) :
  same_params self self' ->
  GeoboxTiles._idx_to_slice self' idx = GeoboxTiles._idx_to_slice self idx.
Proof.
  intros (Hg & Ht & _). destruct idx as [i_r i_c].
  rewrite !idx_to_slice_unfold, Hg, Ht. reflexivity.
Qed.

(** Along one axis, the slices of two different indices do not overlap. *)
Lemma slice_no_overlap (i j N n : Z) (s s' : slice) :
  0 <= n -> i < j ->
  GeoboxTiles._slice i N n = Ok s -> GeoboxTiles._slice j N n = Ok s' ->
  stop s <= start s'.
Proof.
  intros Hn Hij Hi Hj.
  destruct (slice_cases i N n) as [[_ Ei]|[_ Ei]]; rewrite Ei in Hi;
    [discriminate|].
  destruct (slice_cases j N n) as [[_ Ej]|[_ Ej]]; rewrite Ej in Hj;
    [discriminate|].
  injection Hi as <-; injection Hj as <-; simpl; nia.
Qed.

(** A slice that was returned: full extent where the tile fits, cut at the
    extent of the axis where it does not. *)
Lemma slice_extent (i N n : Z) (s : slice) :
  GeoboxTiles._slice i N n = Ok s ->
  start s = i * n
  /\ (i * n + n <= N -> slice_len s = n)
  /\ (N < i * n + n -> stop s = N /\ slice_len s < n)
  /\ stop s <= N.
Proof.
  intros Hs.
  destruct (slice_cases i N n) as [[_ E]|[Hlt E]]; rewrite E in Hs;
    [discriminate|].
  injection Hs as <-. unfold slice_len; simpl. lia.
Qed.

(** C4. Per axis the start is [idx_axis * tile_axis]; the call raises
    IndexError exactly when a start is at or beyond the extent of its axis,
    and otherwise returns [slice(start, min(start + tile_axis, extent))] for
    each axis.  A tile that fits has the full tile extent, a tile at the
    boundary is cut at the extent (never beyond it), and along an axis the
    slice of a smaller index ends where that of a larger one starts or
    before. *)
Theorem idx_to_slice_spec (self : GeoboxTiles.t) (i_r i_c : Z) :
  let N_r := GeoBox.height (GeoboxTiles._gbox self) in
  let N_c := GeoBox.width (GeoboxTiles._gbox self) in
  let n_r := (GeoboxTiles._tile_shape self).1 in
  let n_c := (GeoboxTiles._tile_shape self).2 in
  let start_r := i_r * n_r in
  let start_c := i_c * n_c in
  (GeoboxTiles._idx_to_slice self (i_r, i_c) = Raise IndexError
   <-> (start_r >= N_r \/ start_c >= N_c))
  /\ (GeoboxTiles._idx_to_slice self (i_r, i_c)
      = Ok (mkslice start_r (Z.min (start_r + n_r) N_r),
            mkslice start_c (Z.min (start_c + n_c) N_c))
      <-> (start_r < N_r /\ start_c < N_c))
  /\ (forall sr sc,
        GeoboxTiles._idx_to_slice self (i_r, i_c) = Ok (sr, sc) ->
        (start_r + n_r <= N_r -> slice_len sr = n_r)
        /\ (N_r < start_r + n_r -> stop sr = N_r /\ slice_len sr < n_r)
        /\ stop sr <= N_r
        /\ (start_c + n_c <= N_c -> slice_len sc = n_c)
        /\ (N_c < start_c + n_c -> stop sc = N_c /\ slice_len sc < n_c)
        /\ stop sc <= N_c)
  /\ (forall i j N n s s',
        0 <= n -> i < j ->
        GeoboxTiles._slice i N n = Ok s -> GeoboxTiles._slice j N n = Ok s' ->
        stop s <= start s').
Proof.
  intros N_r N_c n_r n_c start_r start_c.
  split; [|split; [|split]].
  - rewrite idx_to_slice_unfold. fold N_r N_c n_r n_c.
    destruct (slice_cases i_r N_r n_r) as [[Hr Er]|[Hr Er]];
      destruct (slice_cases i_c N_c n_c) as [[Hc Ec]|[Hc Ec]];
      rewrite Er; simpl; try rewrite Ec; simpl;
      (split; [intros E; try discriminate E|intros D]);
      subst start_r start_c; auto; lia.
  - rewrite idx_to_slice_unfold. fold N_r N_c n_r n_c.
    destruct (slice_cases i_r N_r n_r) as [[Hr Er]|[Hr Er]];
      destruct (slice_cases i_c N_c n_c) as [[Hc Ec]|[Hc Ec]];
      rewrite Er; simpl; try rewrite Ec; simpl;
      (split; [intros E; try discriminate E|intros D]);
      subst start_r start_c; auto; lia.
  - intros sr sc. rewrite idx_to_slice_unfold. fold N_r N_c n_r n_c.
    destruct (GeoboxTiles._slice i_r N_r n_r) as [sr'|] eqn:Er;
      [|discriminate].
    destruct (GeoboxTiles._slice i_c N_c n_c) as [sc'|] eqn:Ec;
      [|discriminate].
    simpl. intros [= <- <-].
    destruct (slice_extent _ _ _ _ Er) as (_ & ? & ? & ?).
    destruct (slice_extent _ _ _ _ Ec) as (_ & ? & ? & ?).
    subst start_r start_c. tauto.
  - apply slice_no_overlap.
Qed.

(** ** One lookup *)

Section Lookup.

Variables (self : GeoboxTiles.t) (h : heap) (idx : Z * Z).

Lemma getitem_hit (r : ref) :
  GeoboxTiles._cache self !! idx = Some r ->
  GeoboxTiles.__getitem__ self h idx = (Ok r, self, h).
Proof. intros Hc. unfold GeoboxTiles.__getitem__. rewrite Hc. reflexivity. Qed.

Lemma getitem_miss_Raise (e : exn) :
  GeoboxTiles._cache self !! idx = None ->
  GeoboxTiles._idx_to_slice self idx = Raise e ->
  GeoboxTiles.__getitem__ self h idx = (Raise e, self, h).
Proof.
  intros Hc Hs. unfold GeoboxTiles.__getitem__. rewrite Hc, Hs. reflexivity.
Qed.

Lemma getitem_miss_Ok (roi : slice * slice) :
  GeoboxTiles._cache self !! idx = None ->
  GeoboxTiles._idx_to_slice self idx = Ok roi ->
  GeoboxTiles.__getitem__ self h idx
  = (Ok (length h),
     GeoboxTiles.mk (GeoboxTiles._gbox self) (GeoboxTiles._tile_shape self)
       (GeoboxTiles._shape self)
       (<[idx := length h]> (GeoboxTiles._cache self)),
     h ++ [GeoBox.getitem (GeoboxTiles._gbox self) roi]).
Proof.
  intros Hc Hs. unfold GeoboxTiles.__getitem__, GeoboxTiles.setdefault, alloc.
  rewrite Hc, Hs. reflexivity.
Qed.

Lemma getitem_cases :
  getitem_outcome self h idx (GeoboxTiles.__getitem__ self h idx).
Proof.
  destruct (GeoboxTiles._cache self !! idx) as [r|] eqn:Hc.
  - rewrite (getitem_hit r Hc). by constructor.
  - destruct (GeoboxTiles._idx_to_slice self idx) as [roi|e] eqn:Hs.
    + rewrite (getitem_miss_Ok roi Hc Hs). by constructor.
    + rewrite (getitem_miss_Raise e Hc Hs). by constructor.
Qed.

End Lookup.

Lemma same_params_refl (self : GeoboxTiles.t) : same_params self self.
Proof. by repeat split. Qed.

Lemma same_params_trans (s1 s2 s3 : GeoboxTiles.t) :
  same_params s1 s2 -> same_params s2 s3 -> same_params s1 s3.
Proof. intros (? & ? & ?) (? & ? & ?). repeat split; congruence. Qed.

Lemma getitem_same_params self h idx res self' h' :
  GeoboxTiles.__getitem__ self h idx = (res, self', h') ->
  same_params self self'.
Proof.
  intros Hg. pose proof (getitem_cases self h idx) as Hc. rewrite Hg in Hc.
  inversion Hc; subst; by repeat split.
Qed.

Lemma getitem_cache_inv self h idx res self' h' :
  cache_inv self h ->
  GeoboxTiles.__getitem__ self h idx = (res, self', h') ->
  cache_inv self' h'.
Proof.
  intros Hinv Hg. pose proof (getitem_cases self h idx) as Hc.
  rewrite Hg in Hc. inversion Hc; subst; try assumption.
  intros k r Hk. simpl in Hk.
  destruct (decide (idx = k)) as [->|Hne].
  - rewrite lookup_insert_eq in Hk. injection Hk as <-.
    exists roi. split; [assumption|].
    by apply list_lookup_middle.
  - rewrite lookup_insert_ne in Hk by assumption.
    destruct (Hinv k r Hk) as (roi' & Hs & Hh).
    exists roi'. split; [exact Hs|].
    by apply lookup_app_l_Some.
Qed.

(** A lookup that returned a reference has it in the cache afterwards. *)
Lemma getitem_Ok_cached self h idx r self' h' :
  GeoboxTiles.__getitem__ self h idx = (Ok r, self', h') ->
  GeoboxTiles._cache self' !! idx = Some r.
Proof.
  intros Hg. pose proof (getitem_cases self h idx) as Hc. rewrite Hg in Hc.
  inversion Hc; subst; [assumption|]. simpl. apply lookup_insert_eq.
Qed.

Lemma getitem_Raise_unchanged self h idx e self' h' :
  GeoboxTiles.__getitem__ self h idx = (Raise e, self', h') ->
  self' = self /\ h' = h /\ GeoboxTiles._idx_to_slice self idx = Raise e
  /\ GeoboxTiles._cache self !! idx = None.
Proof.
  intros Hg. pose proof (getitem_cases self h idx) as Hc. rewrite Hg in Hc.
  inversion Hc; subst. by repeat split.
Qed.

(** The slice computation raises nothing but IndexError. *)
Lemma idx_to_slice_Raise self idx e :
  GeoboxTiles._idx_to_slice self idx = Raise e -> e = IndexError.
Proof.
  destruct idx as [i_r i_c]. rewrite idx_to_slice_unfold. intros He.
  destruct (slice_cases i_r (GeoBox.height (GeoboxTiles._gbox self))
              (GeoboxTiles._tile_shape self).1) as [[_ Er]|[_ Er]];
    rewrite Er in He; simpl in He; [congruence|].
  destruct (slice_cases i_c (GeoBox.width (GeoboxTiles._gbox self))
              (GeoboxTiles._tile_shape self).2) as [[_ Ec]|[_ Ec]];
    rewrite Ec in He; simpl in He; congruence.
Qed.

(** ** Sequences of lookups *)

Lemma lookups_same_params idxs : forall self h self' h',
  GeoboxTiles.lookups idxs self h = (self', h') -> same_params self self'.
Proof.
  induction idxs as [|idx rest IH]; intros self h self' h' Hl; simpl in Hl.
  - injection Hl as <- <-. apply same_params_refl.
  - destruct (GeoboxTiles.__getitem__ self h idx) as [[res s1] h1] eqn:Hg.
    eapply same_params_trans; [eapply getitem_same_params, Hg|].
    eapply IH, Hl.
Qed.

Lemma lookups_cache_inv idxs : forall self h self' h',
  cache_inv self h ->
  GeoboxTiles.lookups idxs self h = (self', h') -> cache_inv self' h'.
Proof.
  induction idxs as [|idx rest IH]; intros self h self' h' Hinv Hl;
    simpl in Hl.
  - by injection Hl as <- <-.
  - destruct (GeoboxTiles.__getitem__ self h idx) as [[res s1] h1] eqn:Hg.
    eapply IH; [|exact Hl]. eapply getitem_cache_inv; eauto.
Qed.

(** What is known of a reachable partitioner with a positive tile shape. *)
Lemma reachable_facts box th tw self h :
  0 < th -> 0 < tw ->
  reachable box (th, tw) self h ->
  GeoboxTiles._gbox self = box
  /\ GeoboxTiles._tile_shape self = (th, tw)
  /\ GeoboxTiles._shape self
     = ((GeoBox.height box + th - 1) / th, (GeoBox.width box + tw - 1) / tw)
  /\ cache_inv self h.
Proof.
  intros Hth Htw (self0 & h0 & idxs & Hinit & Hl).
  rewrite init_pos in Hinit by assumption. injection Hinit as <-.
  destruct (lookups_same_params _ _ _ _ _ Hl) as (Hg & Ht & Hs).
  simpl in Hg, Ht, Hs. repeat split; try assumption.
  eapply lookups_cache_inv; [|exact Hl].
  intros k r Hk. simpl in Hk. by rewrite lookup_empty in Hk.
Qed.




Lemma beyond_grid_no_slices box th tw self h i_r i_c :
  0 < th -> 0 < tw ->
  reachable box (th, tw) self h ->
  (GeoboxTiles.shape self).1 <= i_r \/ (GeoboxTiles.shape self).2 <= i_c ->
  GeoboxTiles._idx_to_slice self (i_r, i_c) = Raise IndexError.
Proof.
  intros Hth Htw Hre Hout.
  destruct (reachable_facts _ _ _ _ _ Hth Htw Hre) as (Hg & Ht & Hs & _).
  unfold GeoboxTiles.shape in Hout. rewrite Hs in Hout. simpl in Hout.
  rewrite idx_to_slice_unfold, Hg, Ht. simpl.
  destruct Hout as [Hr|Hc].
  - rewrite (slice_Raise i_r) by (by apply above_ceil_outside). reflexivity.
  - rewrite (slice_Raise i_c) by (by apply above_ceil_outside).
    destruct (slice_cases i_r (GeoBox.height box) th) as [[_ ->]|[_ ->]];
      reflexivity.
Qed.

(** ** Coverage along one axis *)

(** The pixel [p] of an axis of extent [N] lies in the slice of tile
    [p / n], which is in range, and in the slice of no other index. *)
Lemma axis_cover (N n p : Z) :
  0 < n -> 0 <= p < N ->
  exists s,
    0 <= p / n < (N + n - 1) / n
    /\ GeoboxTiles._slice (p / n) N n = Ok s
    /\ in_slice s p = true
    /\ forall j s', GeoboxTiles._slice j N n = Ok s' ->
                    in_slice s' p = true -> j = p / n.
Proof.
  intros Hn Hp.
  pose proof (Z.div_mod p n ltac:(lia)) as Hdm.
  pose proof (Z.mod_pos_bound p n Hn) as Hmod.
  assert (Hin : p / n * n < N) by nia.
  eexists. split; [|split; [by apply slice_Ok|split]].
  - split; [apply Z.div_pos; lia|].
    destruct (Z_lt_ge_dec (p / n) ((N + n - 1) / n)) as [?|Hge];
      [assumption|].
    pose proof (above_ceil_outside (p / n) N n Hn ltac:(lia)). lia.
  - unfold in_slice; simpl.
    apply andb_true_intro; split; [apply Z.leb_le|apply Z.ltb_lt]; lia.
  - intros j s' Hj Hinj.
    destruct (slice_cases j N n) as [[_ E]|[_ E]]; rewrite E in Hj;
      [discriminate|].
    injection Hj as <-. unfold in_slice in Hinj; simpl in Hinj.
    apply andb_prop in Hinj as [Hlo Hhi].
    apply Z.leb_le in Hlo. apply Z.ltb_lt in Hhi.
    apply Z.div_unique_pos with (r := p - n * j); lia.
Qed.

(** The slice of an index in range lies inside the axis and is not empty;
    it has the full tile extent except possibly for the last index, where
    the extent is [N mod n], or [n] when [n] divides [N]. *)
Lemma axis_tile (N n i : Z) :
  0 < n -> 0 <= i < (N + n - 1) / n ->
  exists s,
    GeoboxTiles._slice i N n = Ok s
    /\ 0 <= start s /\ start s < stop s <= N
    /\ slice_len s
       = if i =? (N + n - 1) / n - 1
         then (if N mod n =? 0 then n else N mod n)
         else n.
Proof.
  intros Hn Hi.
  pose proof (below_ceil_inside i N n Hn Hi) as Hin.
  pose proof (Zceil_div_spec N n Hn) as Hk. simpl in Hk.
  rewrite (Zceil_div_Z N n Hn) in Hk.
  set (k := (N + n - 1) / n) in *.
  pose proof (Z.div_mod N n ltac:(lia)) as Hdm.
  pose proof (Z.mod_pos_bound N n Hn) as Hmod.
  eexists. split; [by apply slice_Ok|]. unfold slice_len; simpl.
  split; [nia|]. split; [nia|].
  destruct (Z.eqb_spec i (k - 1)) as [->|Hne].
  - destruct (Z.eqb_spec (N mod n) 0) as [H0|H0].
    + assert (k = N / n) by nia. nia.
    + assert (k = N / n + 1) by nia. nia.
  - assert (i * n + n <= N) by nia. lia.
Qed.

(** * The claims about the partitioner *)

Lemma tiles100_init : GeoboxTiles.__init__ box100 (30, 30) = Ok tiles100.
Proof. rewrite init_pos by lia. reflexivity. Qed.


(** With the quotient of the constructor taken in exact arithmetic and a
    positive tile shape, the constructor succeeds and the grid
    has [ceil(H/th)] rows and [ceil(W/tw)] columns, each the least count
    whose tiles reach the extent.  Every pixel of [[0,H) x [0,W)] lies in
    the slices of an index in range and of no other index; the slices of an
    index in range lie inside [[0,H) x [0,W)] and are not empty; a tile has
    extent [th] (resp. [tw]) except in the last row (resp. column), where
    it has extent [H mod th], or [th] when [th] divides [H] (resp. for
    [W] and [tw]). *)
Theorem tiling_coverage (box : GeoBox.t) (th tw : Z) :
  0 < th -> 0 < tw ->
  let H := GeoBox.height box in
  let W := GeoBox.width box in
  exists self,
    GeoboxTiles.__init__ box (th, tw) = Ok self
    /\ GeoboxTiles.shape self
       = (Zceil (IZR H / IZR th), Zceil (IZR W / IZR tw))
    /\ ((GeoboxTiles.shape self).1 - 1) * th < H <= (GeoboxTiles.shape self).1 * th
    /\ ((GeoboxTiles.shape self).2 - 1) * tw < W <= (GeoboxTiles.shape self).2 * tw
    /\ (forall y x, 0 <= y < H -> 0 <= x < W ->
          exists idx sr sc,
            GeoboxTiles.in_range self idx = true
            /\ GeoboxTiles._idx_to_slice self idx = Ok (sr, sc)
            /\ in_slice sr y = true /\ in_slice sc x = true
            /\ forall idx' sr' sc',
                 GeoboxTiles._idx_to_slice self idx' = Ok (sr', sc') ->
                 in_slice sr' y = true -> in_slice sc' x = true ->
                 idx' = idx)
    /\ (forall idx, GeoboxTiles.in_range self idx = true ->
          exists sr sc,
            GeoboxTiles._idx_to_slice self idx = Ok (sr, sc)
            /\ 0 <= start sr /\ start sr < stop sr <= H
            /\ 0 <= start sc /\ start sc < stop sc <= W
            /\ slice_len sr
               = (if idx.1 =? (GeoboxTiles.shape self).1 - 1
                  then (if H mod th =? 0 then th else H mod th) else th)
            /\ slice_len sc
               = (if idx.2 =? (GeoboxTiles.shape self).2 - 1
                  then (if W mod tw =? 0 then tw else W mod tw) else tw)).
Proof.
  intros Hth Htw H W.
  eexists. split; [by apply init_pos|].
  unfold GeoboxTiles.shape; simpl. fold H W.
  split; [by rewrite !Zceil_div_Z|].
  pose proof (Zceil_div_spec H th Hth) as Hkr.
  pose proof (Zceil_div_spec W tw Htw) as Hkc. simpl in Hkr, Hkc.
  rewrite Zceil_div_Z in Hkr, Hkc by assumption.
  split; [exact Hkr|]. split; [exact Hkc|]. split.
  - intros y x Hy Hx.
    destruct (axis_cover H th y Hth Hy) as (sr & Hir & Hsr & Hyr & Hur).
    destruct (axis_cover W tw x Htw Hx) as (sc & Hic & Hsc & Hxc & Huc).
    exists (y / th, x / tw), sr, sc. repeat split.
    + unfold GeoboxTiles.in_range, GeoboxTiles.shape; simpl.
      repeat (apply andb_true_intro; split);
        first [apply Z.leb_le|apply Z.ltb_lt]; lia.
    + rewrite idx_to_slice_unfold; simpl. fold H W.
      rewrite Hsr; simpl. rewrite Hsc; reflexivity.
    + exact Hyr.
    + exact Hxc.
    + intros [j_r j_c] sr' sc'. rewrite idx_to_slice_unfold; simpl.
      fold H W.
      destruct (GeoboxTiles._slice j_r H th) as [s1|] eqn:E1; [|discriminate].
      destruct (GeoboxTiles._slice j_c W tw) as [s2|] eqn:E2; [|discriminate].
      simpl. intros [= <- <-] Hy' Hx'.
      f_equal; [eapply Hur|eapply Huc]; eauto.
  - intros [i_r i_c] Hin.
    unfold GeoboxTiles.in_range, GeoboxTiles.shape in Hin; simpl in Hin.
    apply andb_prop in Hin as [Hin Hc2]. apply andb_prop in Hin as [Hin Hc1].
    apply andb_prop in Hin as [Hr1 Hr2].
    apply Z.leb_le in Hr1, Hc1. apply Z.ltb_lt in Hr2, Hc2.
    destruct (axis_tile H th i_r Hth ltac:(lia)) as (sr & Hsr & Hbr & Hbr' & Hlr).
    destruct (axis_tile W tw i_c Htw ltac:(lia)) as (sc & Hsc & Hbc & Hbc' & Hlc).
    exists sr, sc. rewrite idx_to_slice_unfold; simpl. fold H W.
    rewrite Hsr; simpl. rewrite Hsc; simpl. tauto.
Qed.



(** C10. A lookup that raises leaves the partitioner and the heap as they
    were: the cache afterwards is the cache before, and the exception is
    the IndexError of the slice computation. *)
Theorem failed_lookup_leaves_state self h idx e self' h' :
  GeoboxTiles.__getitem__ self h idx = (Raise e, self', h') ->
  self' = self /\ h' = h
  /\ GeoboxTiles._cache self' = GeoboxTiles._cache self
  /\ GeoboxTiles._cache self' !! idx = None
  /\ e = IndexError.
Proof.
  intros Hget.
  apply getitem_Raise_unchanged in Hget as (-> & -> & He & Hmiss).
  repeat split; try assumption. eapply idx_to_slice_Raise, He.
Qed.

Lemma failed_lookup_leaves_state_witness :
  GeoboxTiles.__getitem__ tiles100 [] (4, 0) = (Raise IndexError, tiles100, [])
  /\ GeoboxTiles._cache tiles100 !! (4, 0) = None.
Proof.
  assert (Hget : GeoboxTiles.__getitem__ tiles100 [] (4, 0)
                 = (Raise IndexError, tiles100, [])) by reflexivity.
  split; [exact Hget|].
  exact (proj1 (proj2 (proj2 (proj2
           (failed_lookup_leaves_state tiles100 [] (4, 0) IndexError
              tiles100 [] Hget))))).
Defined.

(** Part of C1 that the code does keep: an index with a component at or
    above that of the grid shape raises IndexError, whatever has been looked
    up before. *)
Lemma lookup_beyond_grid_raises box th tw self h i_r i_c :
  0 < th -> 0 < tw ->
  reachable box (th, tw) self h ->
  (GeoboxTiles.shape self).1 <= i_r \/ (GeoboxTiles.shape self).2 <= i_c ->
  GeoboxTiles.__getitem__ self h (i_r, i_c) = (Raise IndexError, self, h).
Proof.
  intros Hth Htw Hre Hout.
  pose proof (beyond_grid_no_slices _ _ _ _ _ _ _ Hth Htw Hre Hout) as He.
  destruct (reachable_facts _ _ _ _ _ Hth Htw Hre) as (_ & _ & _ & Hinv).
  apply getitem_miss_Raise; [|exact He].
  destruct (GeoboxTiles._cache self !! (i_r, i_c)) as [r|] eqn:Hc;
    [|reflexivity].
  destruct (Hinv _ _ Hc) as (roi & Hroi & _). congruence.
Qed.

(** C1, where the code departs from it.  On the [(100, 100)] box with
    [(30, 30)] tiles the index [(-1, 0)] is outside the grid, yet the slice
    computation accepts it ([-30 >= 100] is false) and the lookup returns a
    tile built from [slice(-30, 0)] and [slice(0, 30)], which it also
    caches: no IndexError. *)
Theorem negative_index_lookup_returns_tile :
  GeoboxTiles.__init__ box100 (30, 30) = Ok tiles100
  /\ GeoboxTiles.in_range tiles100 (-1, 0) = false
  /\ GeoboxTiles._idx_to_slice tiles100 (-1, 0)
     = Ok (mkslice (-30) 0, mkslice 0 30)
  /\ GeoboxTiles.__getitem__ tiles100 [] (-1, 0)
     = (Ok 0%nat,
        GeoboxTiles.mk box100 (30, 30) (4, 4) {[ (-1, 0) := 0%nat ]},
        [GeoBox.getitem box100 (mkslice (-30) 0, mkslice 0 30)]).
Proof.
  split; [exact tiles100_init|]. split; [reflexivity|].
  split; [reflexivity|].
  rewrite (getitem_miss_Ok tiles100 [] (-1, 0)
             (mkslice (-30) 0, mkslice 0 30)) by reflexivity.
  reflexivity.
Qed.

(** * Further properties of the transform functions *)

Lemma geobox_eq (x y : GeoBox.t) :
  GeoBox.width x = GeoBox.width y -> GeoBox.height x = GeoBox.height y ->
  GeoBox.affine x = GeoBox.affine y -> GeoBox.crs x = GeoBox.crs y -> x = y.
Proof. destruct x, y; simpl; intros; subst; reflexivity. Qed.

Lemma mul_identity_l (x : Affine.t) : Affine.identity *A x = x.
Proof. apply affine_eq; simpl; ring. Qed.

Lemma translation_zero : Affine.translation 0 0 = Affine.identity.
Proof. reflexivity. Qed.

Lemma scale_one : Affine.scale 1 1 = Affine.identity.
Proof. reflexivity. Qed.


(** Two rotations about the same pivot add their angles. *)
Lemma rotation_rotation (d1 d2 : R) (pivot : R * R) :
  Affine.rotation d2 pivot *A Affine.rotation d1 pivot
  = Affine.rotation (d1 + d2) pivot.
Proof.
  destruct pivot as [px py]. unfold Affine.rotation, Affine.cos_sin_deg.
  replace ((d1 + d2) * PI / 180)%R
    with (d1 * PI / 180 + d2 * PI / 180)%R by (unfold Rdiv; ring).
  rewrite cos_plus, sin_plus.
  apply affine_eq; simpl; ring.
Qed.

Lemma rotation_zero (pivot : R * R) : Affine.rotation 0 pivot = Affine.identity.
Proof.
  destruct pivot as [px py]. unfold Affine.rotation, Affine.cos_sin_deg.
  replace (0 * PI / 180)%R with 0%R by (unfold Rdiv; ring).
  rewrite cos_0, sin_0. apply affine_eq; simpl; ring.
Qed.

Lemma rotation_full_turn (pivot : R * R) :
  Affine.rotation 360 pivot = Affine.identity.
Proof.
  destruct pivot as [px py]. unfold Affine.rotation, Affine.cos_sin_deg.
  replace (360 * PI / 180)%R with (2 * PI)%R by (unfold Rdiv; field).
  rewrite cos_2PI, sin_2PI. apply affine_eq; simpl; ring.
Qed.

(** A half turn about [pivot] is the point reflection through it. *)
Lemma rotation_half_turn (px py : R) :
  Affine.rotation 180 (px, py)
  = Affine.mk (-1) 0 (2 * px) 0 (-1) (2 * py).
Proof.
  unfold Affine.rotation, Affine.cos_sin_deg.
  replace (180 * PI / 180)%R with PI by (unfold Rdiv; field).
  rewrite cos_PI, sin_PI. apply affine_eq; simpl; ring.
Qed.

Lemma rotate_unfold (b : GeoBox.t) (deg : R) :
  rotate b deg
  = GeoBox.mk (GeoBox.width b) (GeoBox.height b)
      (Affine.rotation deg
         (Affine.apply (GeoBox.affine b)
            (IZR (GeoBox.width b) / 2, IZR (GeoBox.height b) / 2)%R)
       *A GeoBox.affine b)
      (GeoBox.crs b).
Proof.
  destruct b as [W H A crs]. unfold rotate, GeoBox.transform, GeoBox.shape.
  cbn [GeoBox.affine GeoBox.height GeoBox.width GeoBox.crs].
  replace (IZR W * 0.5)%R with (IZR W / 2)%R by lra.
  replace (IZR H * 0.5)%R with (IZR H / 2)%R by lra.
  reflexivity.
Qed.

(** X1. [pad] adds [padx] columns on the left and on the right and [pady]
    rows above and below ([pady] is [padx] when it is not given), keeps the
    CRS, and every pixel of the old grid keeps its place in the world: old
    pixel [(x, y)] is new pixel [(x + padx, y + pady)]. *)
Theorem pad_geometry (b : GeoBox.t) (padx : Z) (pady : option Z) :
  let py := default padx pady in
  GeoBox.shape (pad b padx pady)
  = (GeoBox.height b + 2 * py, GeoBox.width b + 2 * padx)
  /\ GeoBox.crs (pad b padx pady) = GeoBox.crs b
  /\ forall x y : R,
       Affine.apply (GeoBox.affine (pad b padx pady))
         (x + IZR padx, y + IZR py)%R
       = Affine.apply (GeoBox.affine b) (x, y).
Proof.
  destruct b as [W H A crs]. destruct pady as [q|]; simpl;
    (split; [unfold GeoBox.shape; simpl; f_equal; lia|]);
    (split; [reflexivity|]); intros x y; rewrite !opp_IZR;
    f_equal; ring.
Qed.

(** X2. Padding by nothing changes nothing, two paddings add up, and
    padding by the opposite amounts undoes a padding. *)
Theorem pad_compose (b : GeoBox.t) (p1 q1 p2 q2 : Z) :
  pad b 0 None = b
  /\ pad (pad b p1 (Some q1)) p2 (Some q2) = pad b (p1 + p2) (Some (q1 + q2))
  /\ pad (pad b p1 None) p2 None = pad b (p1 + p2) None
  /\ pad (pad b p1 (Some q1)) (- p1) (Some (- q1)) = b.
Proof.
  destruct b as [W H A crs].
  repeat split; apply geobox_eq; simpl; try lia; try reflexivity;
    rewrite ?mul_assoc, ?translation_translation, ?opp_IZR, ?plus_IZR;
    apply affine_eq; simpl; ring.
Qed.

(** X3. Cutting the original rectangle back out of a padded box gives the
    original box. *)
Theorem pad_then_crop (b : GeoBox.t) (padx pady : Z) :
  GeoBox.getitem (pad b padx (Some pady))
    (mkslice pady (pady + GeoBox.height b),
     mkslice padx (padx + GeoBox.width b))
  = b.
Proof.
  destruct b as [W H A crs]. apply geobox_eq; simpl; try lia;
    try reflexivity.
  rewrite !opp_IZR. apply affine_eq; simpl; ring.
Qed.

(** X8. [affine_transform_pix] keeps shape and CRS, and [transform] maps
    the new pixel coordinates to the old ones: the new pixel [p] is where
    the old pixel [transform * p] was.  The identity changes nothing and
    applying [T1] then [T2] is applying the product [T1 * T2]. *)
Theorem affine_transform_pix_action (b : GeoBox.t) (T1 T2 : Affine.t) :
  GeoBox.shape (affine_transform_pix b T1) = GeoBox.shape b
  /\ GeoBox.crs (affine_transform_pix b T1) = GeoBox.crs b
  /\ (forall p, Affine.apply (GeoBox.affine (affine_transform_pix b T1)) p
                = Affine.apply (GeoBox.affine b) (Affine.apply T1 p))
  /\ affine_transform_pix b Affine.identity = b
  /\ affine_transform_pix (affine_transform_pix b T1) T2
     = affine_transform_pix b (T1 *A T2).
Proof.
  destruct b as [W H A crs]. unfold affine_transform_pix; simpl.
  split; [reflexivity|]. split; [reflexivity|].
  split; [intros p; apply apply_mul|].
  split; f_equal; [apply mul_identity_r|apply mul_assoc].
Qed.

(** X9. After [translate_pix b tx ty] the new pixel [(x, y)] is the old
    pixel [(x + tx, y + ty)], so the new [(0, 0)] is the old [(tx, ty)];
    a zero shift changes nothing and the opposite shift undoes a shift. *)
Theorem translate_pix_origin (b : GeoBox.t) (tx ty : R) :
  (forall x y : R,
     Affine.apply (GeoBox.affine (translate_pix b tx ty)) (x, y)
     = Affine.apply (GeoBox.affine b) (x + tx, y + ty)%R)
  /\ Affine.apply (GeoBox.affine (translate_pix b tx ty)) (0, 0)%R
     = Affine.apply (GeoBox.affine b) (tx, ty)
  /\ translate_pix b 0 0 = b
  /\ translate_pix (translate_pix b tx ty) (- tx) (- ty) = b.
Proof.
  destruct b as [W H A crs]. unfold translate_pix; simpl.
  split; [intros x y; f_equal; ring|].
  split; [f_equal; ring|].
  split; f_equal; apply affine_eq; simpl; ring.
Qed.

(** X10. A flipped box covers the same region: pixel [(x, y)] of
    [flipy b] is pixel [(x, H - y)] of [b], pixel [(x, y)] of [flipx b] is
    pixel [(W - x, y)] of [b]; so the corners of the pixel grid go to the
    same four world points, two by two exchanged. *)
Theorem flip_same_footprint (b : GeoBox.t) :
  let H := IZR (GeoBox.height b) in
  let W := IZR (GeoBox.width b) in
  let A := GeoBox.affine b in
  (forall x y : R, Affine.apply (GeoBox.affine (flipy b)) (x, y)
                   = Affine.apply A (x, H - y)%R)
  /\ (forall x y : R, Affine.apply (GeoBox.affine (flipx b)) (x, y)
                      = Affine.apply A (W - x, y)%R)
  /\ Affine.apply (GeoBox.affine (flipy b)) (0, 0)%R = Affine.apply A (0, H)%R
  /\ Affine.apply (GeoBox.affine (flipy b)) (W, H) = Affine.apply A (W, 0)%R
  /\ Affine.apply (GeoBox.affine (flipx b)) (0, 0)%R = Affine.apply A (W, 0)%R
  /\ Affine.apply (GeoBox.affine (flipx b)) (W, H) = Affine.apply A (0, H)%R.
Proof.
  destruct b as [W H A crs]. unfold flipx, flipy; simpl.
  repeat split; intros; f_equal; ring.
Qed.

(** X11. The two flips commute, and flipping both axes is rotating the box
    by 180 degrees. *)
Theorem flips_commute_half_turn (b : GeoBox.t) :
  flipx (flipy b) = flipy (flipx b)
  /\ rotate b 180 = flipx (flipy b).
Proof.
  split.
  - destruct b as [W H A crs]. unfold flipx, flipy; simpl.
    f_equal. apply affine_eq; simpl; ring.
  - rewrite rotate_unfold. destruct b as [W H A crs].
    unfold flipx, flipy; simpl. f_equal.
    rewrite rotation_half_turn. apply affine_eq; simpl; field.
Qed.

(** X12. Rotating by 0 or by 360 degrees changes nothing. *)
Theorem rotate_full_turn (b : GeoBox.t) :
  rotate b 0 = b /\ rotate b 360 = b.
Proof.
  rewrite !rotate_unfold, rotation_zero, rotation_full_turn.
  destruct b as [W H A crs]; simpl. rewrite mul_identity_l. split; reflexivity.
Qed.

(** X13. Rotating twice is rotating once by the sum of the angles: the
    centre of the footprint does not move, so both turns are about the same
    point. *)
Theorem rotate_rotate (b : GeoBox.t) (d1 d2 : R) :
  rotate (rotate b d1) d2 = rotate b (d1 + d2).
Proof.
  rewrite (rotate_unfold (rotate b d1)), !(rotate_unfold b).
  cbn [GeoBox.affine GeoBox.height GeoBox.width GeoBox.crs].
  f_equal. rewrite apply_mul, rotation_fixes_pivot.
  rewrite <- mul_assoc, rotation_rotation. reflexivity.
Qed.



(** X16. Zooming a box to its own shape gives the box back, provided it
    has no zero dimension. *)
Theorem zoom_to_own_shape (b : GeoBox.t) :
  GeoBox.height b <> 0 -> GeoBox.width b <> 0 ->
  zoom_to b (GeoBox.shape b) = Ok b.
Proof.
  intros HH HW. destruct b as [W H A crs]. simpl in HH, HW.
  unfold zoom_to, float_div; simpl.
  destruct (Z.eqb_spec W 0) as [?|_]; [contradiction|].
  destruct (Z.eqb_spec H 0) as [?|_]; [contradiction|]. simpl.
  assert (IZR W <> 0%R) by (apply not_0_IZR; assumption).
  assert (IZR H <> 0%R) by (apply not_0_IZR; assumption).
  f_equal. f_equal.
  replace (IZR W / IZR W)%R with 1%R by (field; assumption).
  replace (IZR H / IZR H)%R with 1%R by (field; assumption).
  rewrite scale_one. apply mul_identity_r.
Qed.

Lemma zoom_to_own_shape_witness :
  100 <> 0 /\ zoom_to box100 (100, 100) = Ok box100.
Proof.
  split; [lia|].
  apply (zoom_to_own_shape box100); simpl; lia.
Defined.

(** * Further properties of the tile partitioner *)

(** Below the ceiling, negative indices included, the start is inside. *)
Lemma lt_ceil_inside (i N n : Z) :
  0 < n -> i < (N + n - 1) / n -> i * n < N.
Proof.
  intros Hn Hi. rewrite <- (Zceil_div_Z N n Hn) in Hi.
  pose proof (Zceil_div_spec N n Hn) as Hk. simpl in Hk. nia.
Qed.

Lemma lt_grid_slices box th tw self h i_r i_c :
  0 < th -> 0 < tw ->
  reachable box (th, tw) self h ->
  i_r < (GeoboxTiles.shape self).1 -> i_c < (GeoboxTiles.shape self).2 ->
  GeoboxTiles._idx_to_slice self (i_r, i_c)
  = Ok (mkslice (i_r * th) (Z.min (i_r * th + th) (GeoBox.height box)),
        mkslice (i_c * tw) (Z.min (i_c * tw + tw) (GeoBox.width box))).
Proof.
  intros Hth Htw Hre Hr Hc.
  destruct (reachable_facts _ _ _ _ _ Hth Htw Hre) as (Hg & Ht & Hs & _).
  unfold GeoboxTiles.shape in Hr, Hc. rewrite Hs in Hr, Hc. simpl in Hr, Hc.
  rewrite idx_to_slice_unfold, Hg, Ht. simpl.
  rewrite (slice_Ok i_r _ th) by (by apply lt_ceil_inside). simpl.
  rewrite (slice_Ok i_c _ tw) by (by apply lt_ceil_inside). reflexivity.
Qed.

(** ** What lookups do to the cache and to the heap *)

Lemma getitem_only_adds self h idx :
  let st := GeoboxTiles.__getitem__ self h idx in
  GeoboxTiles._cache self ⊆ GeoboxTiles._cache st.1.2
  /\ h `prefix_of` st.2
  /\ dom (GeoboxTiles._cache st.1.2) ⊆ dom (GeoboxTiles._cache self) ∪ {[idx]}
  /\ (size (GeoboxTiles._cache st.1.2) <= S (size (GeoboxTiles._cache self)))%nat.
Proof.
  destruct (getitem_cases self h idx) as [r Hc|e Hc He|roi Hc Hs]; simpl.
  - split; [done|]. split; [done|]. split; [apply union_subseteq_l|lia].
  - split; [done|]. split; [done|]. split; [apply union_subseteq_l|lia].
  - split; [by apply insert_subseteq|].
    split; [by apply prefix_app_r|].
    split; [by rewrite dom_insert_L, (comm_L (∪) {[idx]})|].
    by rewrite map_size_insert_None.
Qed.

Lemma getitem_refs_inv n0 self h idx :
  refs_inv n0 self h ->
  refs_inv n0 (GeoboxTiles.__getitem__ self h idx).1.2
              (GeoboxTiles.__getitem__ self h idx).2.
Proof.
  intros Hinv.
  destruct (getitem_cases self h idx) as [r Hc|e Hc He|roi Hc Hs]; simpl;
    [exact Hinv..|].
  destruct Hinv as (Hlen & Hbnd & Hinj).
  split; [|split]; simpl.
  - rewrite length_app, map_size_insert_None by assumption. simpl. lia.
  - intros k r Hk. rewrite length_app; simpl.
    destruct (decide (idx = k)) as [->|Hne].
    + rewrite lookup_insert_eq in Hk. injection Hk as <-. lia.
    + rewrite lookup_insert_ne in Hk by assumption.
      specialize (Hbnd k r Hk). lia.
  - intros i j r Hi Hj.
    destruct (decide (idx = i)) as [<-|Hni];
      destruct (decide (idx = j)) as [<-|Hnj]; [reflexivity|..].
    + rewrite lookup_insert_eq in Hi. injection Hi as <-.
      rewrite lookup_insert_ne in Hj by assumption.
      specialize (Hbnd j _ Hj). lia.
    + rewrite lookup_insert_eq in Hj. injection Hj as <-.
      rewrite lookup_insert_ne in Hi by assumption.
      specialize (Hbnd i _ Hi). lia.
    + rewrite lookup_insert_ne in Hi, Hj by assumption. eauto.
Qed.

Lemma lookups_cons idx rest self h :
  GeoboxTiles.lookups (idx :: rest) self h
  = GeoboxTiles.lookups rest (GeoboxTiles.__getitem__ self h idx).1.2
                             (GeoboxTiles.__getitem__ self h idx).2.
Proof.
  simpl. by destruct (GeoboxTiles.__getitem__ self h idx) as [[res s1] h1].
Qed.

Lemma lookups_refs_inv n0 idxs : forall self h,
  refs_inv n0 self h ->
  refs_inv n0 (GeoboxTiles.lookups idxs self h).1
              (GeoboxTiles.lookups idxs self h).2.
Proof.
  induction idxs as [|idx rest IH]; intros self h Hinv; [exact Hinv|].
  rewrite lookups_cons. by apply IH, getitem_refs_inv.
Qed.

Lemma lookups_size idxs : forall self h,
  (size (GeoboxTiles._cache (GeoboxTiles.lookups idxs self h).1)
   <= size (GeoboxTiles._cache self) + length idxs)%nat.
Proof.
  induction idxs as [|idx rest IH]; intros self h; [simpl; lia|].
  rewrite lookups_cons.
  destruct (getitem_only_adds self h idx) as (_ & _ & _ & Hs).
  specialize (IH (GeoboxTiles.__getitem__ self h idx).1.2
                 (GeoboxTiles.__getitem__ self h idx).2).
  simpl. lia.
Qed.

(** X19. Lookups only ever add: whatever was cached stays cached under the
    same reference, the objects already in the heap stay where they are,
    the box and the tile shape are not touched, and the only indices that
    can enter the cache are the ones that were looked up. *)
Theorem lookups_only_add (idxs : list (Z * Z)) (self : GeoboxTiles.t)
    (h : heap) :
  let st := GeoboxTiles.lookups idxs self h in
  GeoboxTiles._cache self ⊆ GeoboxTiles._cache st.1
  /\ h `prefix_of` st.2
  /\ same_params self st.1
  /\ dom (GeoboxTiles._cache st.1)
     ⊆ dom (GeoboxTiles._cache self) ∪ list_to_set idxs.
Proof.
  revert self h. induction idxs as [|idx rest IH]; intros self h.
  - simpl. split; [done|]. split; [done|].
    split; [apply same_params_refl|]. apply union_subseteq_l.
  - rewrite lookups_cons. cbv zeta.
    destruct (getitem_only_adds self h idx) as (Hc & Hh & Hd & _).
    pose proof (getitem_same_params self h idx
                  (GeoboxTiles.__getitem__ self h idx).1.1
                  (GeoboxTiles.__getitem__ self h idx).1.2
                  (GeoboxTiles.__getitem__ self h idx).2) as Hp.
    specialize (Hp ltac:(by destruct (GeoboxTiles.__getitem__ self h idx)
                              as [[? ?] ?])).
    destruct (IH (GeoboxTiles.__getitem__ self h idx).1.2
                 (GeoboxTiles.__getitem__ self h idx).2)
      as (Hc' & Hh' & Hp' & Hd').
    split; [by etrans|]. split; [by etrans|].
    split; [by eapply same_params_trans|].
    intros x Hx. apply Hd', elem_of_union in Hx as [Hx|Hx].
    + apply Hd, elem_of_union in Hx as [Hx|Hx].
      * by apply elem_of_union_l.
      * by apply elem_of_union_r, elem_of_union_l.
    + by apply elem_of_union_r, elem_of_union_r.
Qed.

(** X20. Memoisation wastes nothing: on a freshly built partitioner, after
    any lookups, the heap has grown by exactly one object per cached index,
    no two indices share a reference, every cached reference names one of
    the objects built since, and there are at most as many cached tiles as
    there were lookups. *)
Theorem one_object_per_cached_index box tile_shape self0 h0 idxs :
  GeoboxTiles.__init__ box tile_shape = Ok self0 ->
  let st := GeoboxTiles.lookups idxs self0 h0 in
  length st.2 = (length h0 + size (GeoboxTiles._cache st.1))%nat
  /\ (forall idx r, GeoboxTiles._cache st.1 !! idx = Some r ->
                    (length h0 <= r < length st.2)%nat)
  /\ (forall i j r, GeoboxTiles._cache st.1 !! i = Some r ->
                    GeoboxTiles._cache st.1 !! j = Some r -> i = j)
  /\ (size (GeoboxTiles._cache st.1) <= length idxs)%nat.
Proof.
  intros Hinit.
  assert (Hc0 : GeoboxTiles._cache self0 = ∅).
  { destruct tile_shape as [th tw].
    unfold GeoboxTiles.__init__ in Hinit. simpl in Hinit.
    destruct (GeoboxTiles.ceil_div (GeoBox.height box) th); [|discriminate].
    destruct (GeoboxTiles.ceil_div (GeoBox.width box) tw); [|discriminate].
    simpl in Hinit. by injection Hinit as <-. }
  assert (Hinv0 : refs_inv (length h0) self0 h0).
  { unfold refs_inv. rewrite Hc0, map_size_empty.
    split; [lia|]. split; intros *; by rewrite lookup_empty. }
  destruct (lookups_refs_inv _ idxs _ _ Hinv0) as (H1 & H2 & H3).
  pose proof (lookups_size idxs self0 h0) as H4.
  rewrite Hc0, map_size_empty in H4.
  cbv zeta. split; [exact H1|]. split; [exact H2|]. split; [exact H3|]. lia.
Qed.

Lemma one_object_per_cached_index_witness :
  GeoboxTiles.__init__ box100 (30, 30) = Ok tiles100
  /\ let st := GeoboxTiles.lookups [(0, 0); (4, 4); (0, 0); (3, 3)]
                 tiles100 [] in
     length st.2 = (0 + size (GeoboxTiles._cache st.1))%nat
     /\ (size (GeoboxTiles._cache st.1) <= 4)%nat.
Proof.
  split; [exact tiles100_init|].
  destruct (one_object_per_cached_index box100 (30, 30) tiles100 []
              [(0, 0); (4, 4); (0, 0); (3, 3)] tiles100_init)
    as (Hlen & _ & _ & Hsz).
  split; [exact Hlen|exact Hsz].
Defined.

(** ** The tiles themselves *)

Lemma in_range_lookup_tile box th tw self h i_r i_c :
  0 < th -> 0 < tw ->
  reachable box (th, tw) self h ->
  GeoboxTiles.in_range self (i_r, i_c) = true ->
  exists r self' h',
    GeoboxTiles.__getitem__ self h (i_r, i_c) = (Ok r, self', h')
    /\ h' !! r
       = Some (GeoBox.getitem box
                 (mkslice (i_r * th) (Z.min (i_r * th + th) (GeoBox.height box)),
                  mkslice (i_c * tw) (Z.min (i_c * tw + tw) (GeoBox.width box))))
    /\ 0 <= i_r * th < GeoBox.height box
    /\ 0 <= i_c * tw < GeoBox.width box.
Proof.
  intros Hth Htw Hre Hin.
  destruct (reachable_facts _ _ _ _ _ Hth Htw Hre) as (Hg & Ht & Hsh & Hinv).
  assert (Hb : (0 <= i_r < (GeoboxTiles.shape self).1)
               /\ (0 <= i_c < (GeoboxTiles.shape self).2)).
  { unfold GeoboxTiles.in_range in Hin.
    destruct (GeoboxTiles.shape self) as [s_r s_c]. simpl.
    apply andb_prop in Hin as [Hin Hc2]. apply andb_prop in Hin as [Hin Hc1].
    apply andb_prop in Hin as [Hr1 Hr2].
    apply Z.leb_le in Hr1, Hc1. apply Z.ltb_lt in Hr2, Hc2. lia. }
  destruct Hb as [Hbr Hbc].
  assert (Hs := lt_grid_slices box th tw self h i_r i_c Hth Htw Hre
                  ltac:(lia) ltac:(lia)).
  assert (Hir : i_r * th < GeoBox.height box).
  { apply lt_ceil_inside; [assumption|].
    unfold GeoboxTiles.shape in Hbr. rewrite Hsh in Hbr. simpl in Hbr. lia. }
  assert (Hic : i_c * tw < GeoBox.width box).
  { apply lt_ceil_inside; [assumption|].
    unfold GeoboxTiles.shape in Hbc. rewrite Hsh in Hbc. simpl in Hbc. lia. }
  destruct (GeoboxTiles.__getitem__ self h (i_r, i_c)) as [[res self'] h']
    eqn:Hget.
  pose proof (getitem_cache_inv _ _ _ _ _ _ Hinv Hget) as Hinv'.
  pose proof (getitem_same_params _ _ _ _ _ _ Hget) as Hsame.
  destruct res as [r|e].
  - exists r, self', h'. split; [reflexivity|].
    pose proof (getitem_Ok_cached _ _ _ _ _ _ Hget) as Hc.
    destruct (Hinv' _ r Hc) as (roi' & Hroi' & Hh').
    rewrite (idx_to_slice_params _ _ _ Hsame), Hs in Hroi'.
    injection Hroi' as <-.
    destruct Hsame as (Hg' & _). rewrite Hg', Hg in Hh'.
    split; [exact Hh'|]. split; nia.
  - apply getitem_Raise_unchanged in Hget as (_ & _ & He & _). congruence.
Qed.





(** * Python's floats as binary64 numbers *)

Section Rounding.

Import Binary64.

Lemma huge_large : 2 ^ 53 < huge.
Proof. vm_compute. reflexivity. Qed.

Lemma pow2_pos (n : Z) : 0 < 2 ^ Z.max 0 n.
Proof. apply Z.pow_pos_nonneg; lia. Qed.

Lemma scaled_num_nonpos (a e : Z) : e <= 0 -> scaled_num a e = a * 2 ^ (- e).
Proof. intros He. unfold scaled_num. now rewrite Z.max_r by lia. Qed.

Lemma scaled_den_nonpos (b e : Z) : e <= 0 -> scaled_den b e = b.
Proof.
  intros He. unfold scaled_den. rewrite Z.max_l, Z.pow_0_r by lia. lia.
Qed.

Lemma scaled_num_nonneg (a e : Z) : 0 <= e -> scaled_num a e = a.
Proof.
  intros He. unfold scaled_num. rewrite Z.max_l, Z.pow_0_r by lia. lia.
Qed.

Lemma scaled_den_nonneg (b e : Z) : 0 <= e -> scaled_den b e = b * 2 ^ e.
Proof. intros He. unfold scaled_den. now rewrite Z.max_r by lia. Qed.

(** Raising the exponent by one halves the scaled quotient. *)
Lemma scaled_halving (a b e : Z) :
  scaled_num a (e + 1) * scaled_den b e * 2
  = scaled_num a e * scaled_den b (e + 1).
Proof.
  destruct (Z_le_gt_dec 0 e) as [He|He].
  - rewrite !scaled_num_nonneg, !scaled_den_nonneg by lia.
    rewrite Z.pow_add_r, Z.pow_1_r by lia. ring.
  - rewrite !scaled_num_nonpos, !scaled_den_nonpos by lia.
    assert (E : 2 ^ (- e) = 2 ^ (- (e + 1)) * 2).
    { replace (- e) with (- (e + 1) + 1) at 1 by lia.
      now rewrite Z.pow_add_r, Z.pow_1_r by lia. }
    rewrite E. ring.
Qed.

Lemma scaled_first_guess (a b : Z) :
  0 < a -> 0 < b ->
  let e0 := Z.log2 a - Z.log2 b - prec in
  2 ^ 52 * scaled_den b e0 <= scaled_num a e0.
Proof.
  intros Ha Hb e0.
  destruct (Z.log2_spec a Ha) as [Hla _].
  destruct (Z.log2_spec b Hb) as [_ Hlb].
  pose proof (Z.log2_nonneg a) as Hla0. pose proof (Z.log2_nonneg b) as Hlb0.
  destruct (Z_le_gt_dec 0 e0) as [He|He].
  - rewrite scaled_num_nonneg, scaled_den_nonneg by lia.
    assert (E : 2 ^ Z.log2 a = 2 ^ 52 * 2 ^ Z.succ (Z.log2 b) * 2 ^ e0).
    { rewrite <- !Z.pow_add_r by lia. f_equal. unfold e0, prec. lia. }
    assert (0 < 2 ^ e0) by (apply Z.pow_pos_nonneg; lia).
    nia.
  - rewrite scaled_num_nonpos, scaled_den_nonpos by lia.
    assert (E : 2 ^ Z.log2 a * 2 ^ (- e0) = 2 ^ 52 * 2 ^ Z.succ (Z.log2 b)).
    { rewrite <- !Z.pow_add_r by lia. f_equal. unfold e0, prec. lia. }
    assert (0 < 2 ^ (- e0)) by (apply Z.pow_pos_nonneg; lia).
    nia.
Qed.

(** The exponent chosen for [a/b] is the least allowed one, or it leaves at
    least 53 bits before the binary point. *)
Lemma last_place_spec (a b : Z) :
  0 < a -> 0 < b ->
  let e := last_place a b in
  emin <= e
  /\ (e = emin \/ 2 ^ 52 * scaled_den b e <= scaled_num a e).
Proof.
  intros Ha Hb e. split; [unfold e, last_place; lia|].
  pose proof (scaled_first_guess a b Ha Hb) as H0. cbv zeta in H0.
  unfold e, last_place.
  set (e0 := Z.log2 a - Z.log2 b - prec) in *.
  assert (Hd0 : 0 < scaled_den b e0)
    by (unfold scaled_den; pose proof (pow2_pos e0); nia).
  assert (Hd1 : 0 < scaled_den b (e0 + 1))
    by (unfold scaled_den; pose proof (pow2_pos (e0 + 1)); nia).
  destruct (Z.leb_spec (2 ^ prec) (scaled_num a e0 / scaled_den b e0))
    as [Hbig|Hsmall].
  - destruct (Z.max_spec (e0 + 1) emin) as [[_ ->]|[_ ->]]; [now left|].
    right.
    pose proof (scaled_halving a b e0) as Hh.
    pose proof (Z.mul_div_le (scaled_num a e0) (scaled_den b e0) Hd0) as Hq.
    assert (2 ^ 53 * scaled_den b e0 <= scaled_num a e0) by (unfold prec in Hbig; nia).
    change (2 ^ 53) with (2 * 2 ^ 52) in *. nia.
  - destruct (Z.max_spec e0 emin) as [[_ ->]|[_ ->]]; [now left|].
    right. exact H0.
Qed.


Lemma nearest_even_cases (num den : Z) :
  0 < den ->
  let m := num / den in
  let r := num mod den in
  (nearest_even num den = m /\ 2 * r <= den)
  \/ (nearest_even num den = m + 1 /\ den <= 2 * r).
Proof.
  intros Hden m r. unfold nearest_even. fold m r.
  destruct (Z.ltb_spec (2 * r) den); [left; lia|].
  destruct (Z.ltb_spec den (2 * r)); [right; lia|].
  destruct (Z.even m); [left|right]; lia.
Qed.

(** Below [2^53] the rounded quotient of two integers has the ceiling of
    the exact quotient. *)
Lemma round_pos_ceil (a b N n : Z) :
  0 < a -> 0 < b -> 0 < N < 2 ^ 53 -> 0 < n < 2 ^ 53 -> a * n = b * N ->
  let x := round_pos a b in
  ceil_fin x = (N + n - 1) / n /\ 0 <= mant x /\ overflows x = false.
Proof.
  intros Ha Hb HN Hn Hab x.
  destruct (last_place_spec a b Ha Hb) as [Hemin Hnorm]. cbv zeta in Hnorm.
  unfold x, round_pos. set (e := last_place a b) in *.
  (* the exact ceiling *)
  set (c := (N + n - 1) / n).
  assert (Hc : (c - 1) * n < N <= c * n).
  { pose proof (Z.div_mod (N + n - 1) n ltac:(lia)) as Hdm.
    pose proof (Z.mod_pos_bound (N + n - 1) n ltac:(lia)) as Hmod.
    fold c in Hdm. nia. }
  assert (Hc0 : 1 <= c) by nia.
  (* the last place is at or below the units *)
  assert (He : e <= 0).
  { destruct Hnorm as [->|Hnorm]; [unfold emin; lia|].
    destruct (Z_le_gt_dec e 0) as [?|Hpos]; [assumption|exfalso].
    rewrite scaled_num_nonneg, scaled_den_nonneg in Hnorm by lia.
    assert (2 <= 2 ^ e).
    { change 2 with (2 ^ 1) at 1. apply Z.pow_le_mono_r; lia. }
    change (2 ^ 53) with (2 * 2 ^ 52) in *. nia. }
  rewrite scaled_num_nonpos, scaled_den_nonpos in * by assumption.
  set (s := 2 ^ (- e)) in *.
  assert (Hs : 1 <= s).
  { unfold s. change 1 with (2 ^ 0). apply Z.pow_le_mono_r; lia. }
  pose proof (Z.div_mod (a * s) b ltac:(lia)) as Hdm.
  pose proof (Z.mod_pos_bound (a * s) b Hb) as Hmod.
  set (m := a * s / b) in *. set (r := (a * s) mod b) in *.
  assert (Hub : a <= b * c) by nia.
  assert (Hlb : (c - 1) * b < a) by nia.
  assert (Hm_hi : m <= c * s) by nia.
  assert (Hm_lo : (c - 1) * s <= m) by nia.
  (* the rounded mantissa lies in ((c-1)*s, c*s] *)
  assert (Hm' : (c - 1) * s < nearest_even (a * s) b <= c * s).
  { destruct (nearest_even_cases (a * s) b Hb) as [[-> Hr]|[-> Hr]];
      fold m r in Hr |- *.
    - split; [|assumption].
      destruct (Z_lt_ge_dec ((c - 1) * s) m) as [?|Hge]; [assumption|exfalso].
      assert (Em : m = (c - 1) * s) by lia.
      set (t := a - (c - 1) * b) in *.
      assert (Ht : 0 < t) by (unfold t; lia).
      assert (Er : r = t * s) by (unfold t; nia).
      assert (Htn : b <= t * n) by (unfold t; nia).
      assert (H2s : n < 2 * s).
      { destruct Hnorm as [Hcl|Hnorm].
        - assert (2 ^ 53 <= s).
          { unfold s. rewrite Hcl. apply Z.pow_le_mono_r; unfold emin; lia. }
          lia.
        - assert (2 ^ 52 <= m) by nia.
          change (2 ^ 53) with (2 * 2 ^ 52) in *. nia. }
      nia.
    - split; [lia|].
      destruct (Z_lt_ge_dec m (c * s)) as [?|Hge]; [lia|exfalso].
      assert (Em : m = c * s) by lia. nia. }
  set (m' := nearest_even (a * s) b) in *.
  assert (Hm0 : 0 <= m') by nia.
  split; [|split].
  - unfold ceil_fin. cbn [mant expo].
    rewrite Z.max_l, Z.max_r by lia. fold s. rewrite Z.pow_0_r, Z.mul_1_r.
    assert (E : - m' / s = - c).
    { symmetry. apply Z.div_unique_pos with (r := c * s - m'); lia. }
    rewrite E. lia.
  - exact Hm0.
  - unfold overflows. cbn [mant expo].
    rewrite (Z.max_r 0 (- e)), (Z.max_l 0 e) by lia. fold s.
    rewrite Z.pow_0_r, Z.mul_1_r.
    apply Z.leb_gt. rewrite Z.abs_eq by lia.
    assert (c <= 2 ^ 53) by nia.
    pose proof huge_large.
    apply Z.le_lt_trans with (c * s); [lia|].
    apply Zmult_lt_compat_r; lia.
Qed.

(** A quotient below [2^53] is rounded in a last place at or below the
    units. *)
Lemma last_place_units (a b : Z) :
  0 < a -> 0 < b -> a < 2 ^ 53 * b -> last_place a b <= 0.
Proof.
  intros Ha Hb Hlt.
  destruct (last_place_spec a b Ha Hb) as [_ Hnorm]. cbv zeta in Hnorm.
  set (e := last_place a b) in *.
  destruct Hnorm as [->|Hnorm]; [unfold emin; lia|].
  destruct (Z_le_gt_dec e 0) as [?|Hpos]; [assumption|exfalso].
  rewrite scaled_num_nonneg, scaled_den_nonneg in Hnorm by lia.
  assert (2 <= 2 ^ e).
  { change 2 with (2 ^ 1) at 1. apply Z.pow_le_mono_r; lia. }
  change (2 ^ 53) with (2 * 2 ^ 52) in *. nia.
Qed.

(** An integer below [2^53] is a binary64 number. *)
Lemma of_int_exact (N : Z) :
  0 < N < 2 ^ 53 ->
  exists e, e <= 0 /\ of_int N = Ok (mk (N * 2 ^ (- e)) e).
Proof.
  intros HN. exists (last_place N 1).
  pose proof (last_place_units N 1 ltac:(lia) ltac:(lia) ltac:(lia)) as He.
  split; [exact He|].
  unfold of_int, round. destruct (Z.eqb_spec N 0) as [?|_]; [lia|].
  rewrite Z.abs_eq, Z.sgn_pos by lia. unfold round_pos.
  set (e := last_place N 1) in *. cbn [mant expo].
  rewrite scaled_num_nonpos, scaled_den_nonpos by assumption.
  assert (Hs : 0 < 2 ^ (- e)) by (apply Z.pow_pos_nonneg; lia).
  assert (Hm : nearest_even (N * 2 ^ (- e)) 1 = N * 2 ^ (- e)).
  { unfold nearest_even. rewrite Z.mod_1_r, Z.div_1_r. reflexivity. }
  rewrite Hm, Z.mul_1_l.
  assert (Ho : overflows (mk (N * 2 ^ (- e)) e) = false).
  { unfold overflows. cbn [mant expo].
    rewrite (Z.max_r 0 (- e)), (Z.max_l 0 e), Z.pow_0_r, Z.mul_1_r by lia.
    apply Z.leb_gt. rewrite Z.abs_eq by nia.
    pose proof huge_large. apply Zmult_lt_compat_r; lia. }
  rewrite Ho. reflexivity.
Qed.

Lemma pow2_balance (ex ey : Z) :
  ex <= 0 -> ey <= 0 ->
  2 ^ (- ex) * 2 ^ Z.max 0 (ex - ey) = 2 ^ (- ey) * 2 ^ Z.max 0 (ey - ex).
Proof.
  intros Hx Hy. rewrite <- !Z.pow_add_r by lia. f_equal. lia.
Qed.

(** The quotient of two integers below [2^53], each written with a last
    place at or below the units, is finite and has the ceiling of the exact
    quotient. *)
Lemma truediv_ceil (N n ex ey : Z) :
  0 < N < 2 ^ 53 -> 0 < n < 2 ^ 53 -> ex <= 0 -> ey <= 0 ->
  exists q,
    truediv (mk (N * 2 ^ (- ex)) ex) (mk (n * 2 ^ (- ey)) ey) = Ok (Finite q)
    /\ ceil_fin q = (N + n - 1) / n.
Proof.
  intros HN Hn Hex Hey.
  assert (Hsx : 0 < 2 ^ (- ex)) by (apply Z.pow_pos_nonneg; lia).
  assert (Hsy : 0 < 2 ^ (- ey)) by (apply Z.pow_pos_nonneg; lia).
  pose proof (pow2_pos (ex - ey)) as Hpx. pose proof (pow2_pos (ey - ex)) as Hpy.
  unfold truediv. cbn [mant expo].
  destruct (Z.eqb_spec (n * 2 ^ (- ey)) 0) as [?|_]; [nia|].
  rewrite Z.sgn_pos, Z.abs_eq, Z.mul_1_r by nia.
  set (a := N * 2 ^ (- ex) * 2 ^ Z.max 0 (ex - ey)).
  set (b := n * 2 ^ (- ey) * 2 ^ Z.max 0 (ey - ex)).
  assert (Ha : 0 < a) by (unfold a; nia).
  assert (Hb : 0 < b) by (unfold b; nia).
  assert (Hab : a * n = b * N).
  { unfold a, b. pose proof (pow2_balance ex ey Hex Hey) as Hbal.
    transitivity (N * n * (2 ^ (- ex) * 2 ^ Z.max 0 (ex - ey)));
      [ring|rewrite Hbal; ring]. }
  destruct (round_pos_ceil a b N n Ha Hb HN Hn Hab) as (Hc & Hm & Ho).
  assert (Er : round a b = round_pos a b).
  { unfold round. destruct (Z.eqb_spec a 0) as [?|_]; [lia|].
    rewrite Z.abs_eq, Z.sgn_pos, Z.mul_1_l by lia.
    destruct (round_pos a b); reflexivity. }
  rewrite Er, Ho. eexists. split; [reflexivity|exact Hc].
Qed.

End Rounding.

Lemma rounded_ceil_div_exact (N n : Z) :
  0 < N < 2 ^ 53 -> 0 < n < 2 ^ 53 ->
  Rounded.ceil_div N n = Ok ((N + n - 1) / n).
Proof.
  intros HN Hn. unfold Rounded.ceil_div.
  destruct (of_int_exact N HN) as (ex & Hex & Ex).
  destruct (of_int_exact n Hn) as (ey & Hey & Ey).
  destruct (truediv_ceil N n ex ey HN Hn Hex Hey) as (q & Hq & Hc).
  rewrite Ex. cbn [mbind result_bind]. rewrite Ey. cbn [mbind result_bind].
  rewrite Hq. cbn [mbind result_bind Binary64.ceil]. by rewrite Hc.
Qed.

(** The model on known values: [float(2**53 + 1)] is [2**53],
    [float(2**53 + 3)] is [2**53 + 4], [0.7] is [6305039478318694 * 2**-53],
    [7 / 0.7] is exactly [10.0], and [2**1024] is too large a [float]. *)
Lemma binary64_examples :
  Binary64.of_int (2 ^ 53 + 1) = Ok (Binary64.mk (2 ^ 52) 1)
  /\ Binary64.of_int (2 ^ 53 + 3) = Ok (Binary64.mk (2 ^ 52 + 2) 1)
  /\ Binary64.round 7 10 = Binary64.mk 6305039478318694 (-53)
  /\ (x ← Binary64.of_int 7;
      q ← Binary64.truediv x (Binary64.round 7 10);
      Binary64.ceil q) = Ok 10
  /\ Binary64.of_int (2 ^ 1024) = Raise OverflowError.
Proof. repeat split; vm_compute; reflexivity. Qed.

Lemma rounded_init_exact (box : GeoBox.t) (th tw : Z) :
  0 < GeoBox.height box < 2 ^ 53 -> 0 < GeoBox.width box < 2 ^ 53 ->
  0 < th < 2 ^ 53 -> 0 < tw < 2 ^ 53 ->
  Rounded.__init__ box (th, tw) = GeoboxTiles.__init__ box (th, tw).
Proof.
  intros HH HW Hth Htw. rewrite init_pos by lia.
  unfold Rounded.__init__. simpl.
  rewrite (rounded_ceil_div_exact _ th HH Hth). simpl.
  rewrite (rounded_ceil_div_exact _ tw HW Htw). reflexivity.
Qed.

(** X17. For a box and a tile shape whose four extents are positive and
    below [2^53], the constructor as Python computes it, with [float(N)]
    and the quotient rounded to binary64 numbers, returns the exact
    ceilings as the grid shape: it is the constructor read in exact
    arithmetic. *)
Theorem init_exact_below_2_53 (box : GeoBox.t) (th tw : Z) :
  0 < GeoBox.height box < 2 ^ 53 -> 0 < GeoBox.width box < 2 ^ 53 ->
  0 < th < 2 ^ 53 -> 0 < tw < 2 ^ 53 ->
  Rounded.__init__ box (th, tw)
  = Ok (GeoboxTiles.mk box (th, tw)
          (Zceil (IZR (GeoBox.height box) / IZR th),
           Zceil (IZR (GeoBox.width box) / IZR tw)) ∅)
  /\ Rounded.__init__ box (th, tw) = GeoboxTiles.__init__ box (th, tw)
  /\ Zceil (IZR (GeoBox.height box) / IZR th)
     = (GeoBox.height box + th - 1) / th
  /\ Zceil (IZR (GeoBox.width box) / IZR tw)
     = (GeoBox.width box + tw - 1) / tw.
Proof.
  intros HH HW Hth Htw.
  rewrite (rounded_init_exact box th tw HH HW Hth Htw), init_pos by lia.
  rewrite !Zceil_div_Z by lia. repeat split.
Qed.

Lemma init_exact_below_2_53_witness :
  0 < 100 < 2 ^ 53 /\ 0 < 30 < 2 ^ 53
  /\ Rounded.__init__ box100 (30, 30) = GeoboxTiles.__init__ box100 (30, 30).
Proof.
  split; [lia|]. split; [lia|].
  exact (proj1 (proj2 (init_exact_below_2_53 box100 30 30
                         ltac:(simpl; lia) ltac:(simpl; lia)
                         ltac:(lia) ltac:(lia)))).
Defined.

(** ** Beyond [2^53] *)

(** C3. Where the code departs from it.  A source box of height
    [2^53 + 1] and width [1], cut into tiles of shape [(1, 1)]:
    [float(2**53 + 1)] is [2**53], so the grid shape the constructor
    computes has [2^53] rows, one short of the ceiling [2^53 + 1].  The
    pixel row [2^53] lies in the slice of the index [(2^53, 0)], which is
    not in range, and in the slice of no index in range: the tiles of the
    grid leave a gap. *)
Theorem grid_shape_short_of_ceiling :
  let H := 2 ^ 53 + 1 in
  let box := GeoBox.mk 1 H Affine.identity None in
  exists self,
    Rounded.__init__ box (1, 1) = Ok self
    /\ GeoboxTiles.shape self = (2 ^ 53, 1)
    /\ Zceil (IZR H / IZR 1) = 2 ^ 53 + 1
    /\ GeoboxTiles.in_range self (2 ^ 53, 0) = false
    /\ GeoboxTiles._idx_to_slice self (2 ^ 53, 0)
       = Ok (mkslice (2 ^ 53) (2 ^ 53 + 1), mkslice 0 1)
    /\ forall idx sr sc,
         GeoboxTiles.in_range self idx = true ->
         GeoboxTiles._idx_to_slice self idx = Ok (sr, sc) ->
         in_slice sr (2 ^ 53) = false.
Proof.
  intros H box.
  assert (E1 : Rounded.ceil_div H 1 = Ok (2 ^ 53)) by (vm_compute; reflexivity).
  assert (E2 : Rounded.ceil_div 1 1 = Ok 1) by (vm_compute; reflexivity).
  exists (GeoboxTiles.mk box (1, 1) (2 ^ 53, 1) ∅).
  split; [|split; [reflexivity|split; [|split; [reflexivity|split]]]].
  - change (Rounded.__init__ box (1, 1))
      with (s_r ← Rounded.ceil_div H 1; s_c ← Rounded.ceil_div 1 1;
            Ok (GeoboxTiles.mk box (1, 1) (s_r, s_c) ∅)).
    rewrite E1. cbn [mbind result_bind]. rewrite E2. reflexivity.
  - rewrite Zceil_div_Z by lia. unfold H. rewrite Z.div_1_r. lia.
  - rewrite idx_to_slice_unfold. cbn [GeoboxTiles._gbox GeoboxTiles._tile_shape
      GeoBox.height GeoBox.width box fst snd].
    rewrite (slice_Ok (2 ^ 53) H 1) by (unfold H; lia).
    cbn [mbind result_bind].
    rewrite (slice_Ok 0 1 1) by lia. cbn [mbind result_bind].
    unfold H. repeat f_equal; lia.
  - intros [i_r i_c] sr sc Hin. rewrite idx_to_slice_unfold.
    cbn [GeoboxTiles._gbox GeoboxTiles._tile_shape GeoBox.height
      GeoBox.width box fst snd].
    unfold GeoboxTiles.in_range, GeoboxTiles.shape in Hin.
    cbn [GeoboxTiles._shape] in Hin.
    apply andb_prop in Hin as [Hin _]. apply andb_prop in Hin as [Hin _].
    apply andb_prop in Hin as [Hr1 Hr2].
    apply Z.leb_le in Hr1. apply Z.ltb_lt in Hr2.
    destruct (GeoboxTiles._slice i_r H 1) as [s1|] eqn:Es; [|discriminate].
    destruct (GeoboxTiles._slice i_c 1 1) as [s2|]; [|discriminate].
    cbn [mbind result_bind]. intros [= <- <-].
    destruct (slice_extent _ _ _ _ Es) as (Hst & _ & _ & _).
    destruct (slice_cases i_r H 1) as [[_ E]|[_ E]]; rewrite E in Es;
      [discriminate|].
    injection Es as <-. unfold in_slice. cbn [start stop].
    apply andb_false_intro2. apply Z.ltb_ge. lia.
Qed.

(** C9. Where the code departs from it; the defect is the one of C3.  A
    source box of height [2^53 + 3] and width [1] with tiles of shape
    [(1, 1)]: [float(2**53 + 3)] is [2**53 + 4], so the grid shape has
    [2^53 + 4] rows, the index [(2^53 + 3, 0)] is in range, and its lookup
    raises IndexError, since [(2^53 + 3) * 1] is not below the height. *)
Theorem in_range_index_raises :
  let H := 2 ^ 53 + 3 in
  let box := GeoBox.mk 1 H Affine.identity None in
  exists self,
    Rounded.__init__ box (1, 1) = Ok self
    /\ GeoboxTiles.shape self = (2 ^ 53 + 4, 1)
    /\ GeoboxTiles.in_range self (2 ^ 53 + 3, 0) = true
    /\ GeoboxTiles.__getitem__ self [] (2 ^ 53 + 3, 0)
       = (Raise IndexError, self, []).
Proof.
  intros H box.
  assert (E1 : Rounded.ceil_div H 1 = Ok (2 ^ 53 + 4))
    by (vm_compute; reflexivity).
  assert (E2 : Rounded.ceil_div 1 1 = Ok 1) by (vm_compute; reflexivity).
  exists (GeoboxTiles.mk box (1, 1) (2 ^ 53 + 4, 1) ∅).
  split; [|split; [reflexivity|split; [reflexivity|]]].
  - change (Rounded.__init__ box (1, 1))
      with (s_r ← Rounded.ceil_div H 1; s_c ← Rounded.ceil_div 1 1;
            Ok (GeoboxTiles.mk box (1, 1) (s_r, s_c) ∅)).
    rewrite E1. cbn [mbind result_bind]. rewrite E2. reflexivity.
  - apply getitem_miss_Raise; [apply lookup_empty|].
    rewrite idx_to_slice_unfold. cbn [GeoboxTiles._gbox GeoboxTiles._tile_shape
      GeoBox.height GeoBox.width box fst snd].
    rewrite (slice_Raise (2 ^ 53 + 3) H 1) by (unfold H; lia). reflexivity.
Qed.

(** ** Below [2^53] *)

Lemma rounded_reachable box th tw self0 h0 idxs :
  0 < GeoBox.height box < 2 ^ 53 -> 0 < GeoBox.width box < 2 ^ 53 ->
  0 < th < 2 ^ 53 -> 0 < tw < 2 ^ 53 ->
  Rounded.__init__ box (th, tw) = Ok self0 ->
  reachable box (th, tw) (GeoboxTiles.lookups idxs self0 h0).1
                         (GeoboxTiles.lookups idxs self0 h0).2.
Proof.
  intros HH HW Hth Htw Hinit.
  rewrite rounded_init_exact in Hinit by assumption.
  exists self0, h0, idxs. split; [exact Hinit|].
  by destruct (GeoboxTiles.lookups idxs self0 h0).
Qed.

(** X18. For a box and a tile shape with extents positive and below
    [2^53], on the constructor as Python computes it and after any lookups:
    the lookup of an index with non-negative components raises IndexError
    exactly when the index is not in range, and returns a tile exactly when
    it is. *)
Theorem lookup_raises_iff_below_2_53 box th tw self0 h0 idxs i_r i_c :
  0 < GeoBox.height box < 2 ^ 53 -> 0 < GeoBox.width box < 2 ^ 53 ->
  0 < th < 2 ^ 53 -> 0 < tw < 2 ^ 53 ->
  Rounded.__init__ box (th, tw) = Ok self0 ->
  0 <= i_r -> 0 <= i_c ->
  let st := GeoboxTiles.lookups idxs self0 h0 in
  ((GeoboxTiles.__getitem__ st.1 st.2 (i_r, i_c)).1.1 = Raise IndexError
   <-> GeoboxTiles.in_range st.1 (i_r, i_c) = false)
  /\ ((exists r, (GeoboxTiles.__getitem__ st.1 st.2 (i_r, i_c)).1.1 = Ok r)
      <-> GeoboxTiles.in_range st.1 (i_r, i_c) = true).
Proof.
  intros HH HW Hth Htw Hinit Hr Hc st.
  pose proof (rounded_reachable box th tw self0 h0 idxs HH HW Hth Htw Hinit)
    as Hre. fold st in Hre.
  destruct st as [self h]. cbn [fst snd] in *.
  destruct (GeoboxTiles.in_range self (i_r, i_c)) eqn:Hin.
  - destruct (in_range_lookup_tile box th tw self h i_r i_c ltac:(lia)
                ltac:(lia) Hre Hin) as (r & self' & h' & Hget & _).
    rewrite Hget. cbn [fst snd].
    split; [split; discriminate|]. split; [reflexivity|eauto].
  - assert (Hout : (GeoboxTiles.shape self).1 <= i_r
                   \/ (GeoboxTiles.shape self).2 <= i_c).
    { unfold GeoboxTiles.in_range in Hin.
      destruct (GeoboxTiles.shape self) as [s_r s_c]. cbn [fst snd].
      destruct (Z.leb_spec 0 i_r), (Z.ltb_spec i_r s_r), (Z.leb_spec 0 i_c),
        (Z.ltb_spec i_c s_c); simpl in Hin; try discriminate; lia. }
    rewrite (lookup_beyond_grid_raises box th tw self h i_r i_c
               ltac:(lia) ltac:(lia) Hre Hout). cbn [fst snd].
    split; [split; reflexivity|]. split; [intros [r E]|]; discriminate.
Qed.

Lemma lookup_raises_iff_below_2_53_witness :
  0 < 100 < 2 ^ 53 /\ 0 < 30 < 2 ^ 53
  /\ Rounded.__init__ box100 (30, 30) = Ok tiles100
  /\ 0 <= 3
  /\ let st := GeoboxTiles.lookups [(0, 0); (4, 0)] tiles100 [] in
     ((exists r, (GeoboxTiles.__getitem__ st.1 st.2 (3, 3)).1.1 = Ok r)
      <-> GeoboxTiles.in_range st.1 (3, 3) = true).
Proof.
  assert (Hinit : Rounded.__init__ box100 (30, 30) = Ok tiles100).
  { rewrite rounded_init_exact by (simpl; lia). exact tiles100_init. }
  split; [lia|]. split; [lia|]. split; [exact Hinit|]. split; [lia|].
  exact (proj2 (lookup_raises_iff_below_2_53 box100 30 30 tiles100 []
                  [(0, 0); (4, 0)] 3 3 ltac:(simpl; lia) ltac:(simpl; lia)
                  ltac:(lia) ltac:(lia) Hinit ltac:(lia) ltac:(lia))).
Defined.

(** X24. For a box and a tile shape with extents positive and below
    [2^53], the grid shape the constructor computes, as Python computes it,
    is [(ceil(H/th), ceil(W/tw))]; every pixel of [[0,H) x [0,W)] lies in
    the slices of an index in range and of no other index; the slices of an
    index in range lie inside the box and are not empty; a tile has the
    full tile extent except in the last row or column, where it has extent
    [H mod th] (resp. [W mod tw]), or the full extent when it divides. *)
Theorem tiling_coverage_below_2_53 (box : GeoBox.t) (th tw : Z) :
  0 < GeoBox.height box < 2 ^ 53 -> 0 < GeoBox.width box < 2 ^ 53 ->
  0 < th < 2 ^ 53 -> 0 < tw < 2 ^ 53 ->
  let H := GeoBox.height box in
  let W := GeoBox.width box in
  exists self,
    Rounded.__init__ box (th, tw) = Ok self
    /\ GeoboxTiles.shape self
       = (Zceil (IZR H / IZR th), Zceil (IZR W / IZR tw))
    /\ ((GeoboxTiles.shape self).1 - 1) * th < H <= (GeoboxTiles.shape self).1 * th
    /\ ((GeoboxTiles.shape self).2 - 1) * tw < W <= (GeoboxTiles.shape self).2 * tw
    /\ (forall y x, 0 <= y < H -> 0 <= x < W ->
          exists idx sr sc,
            GeoboxTiles.in_range self idx = true
            /\ GeoboxTiles._idx_to_slice self idx = Ok (sr, sc)
            /\ in_slice sr y = true /\ in_slice sc x = true
            /\ forall idx' sr' sc',
                 GeoboxTiles._idx_to_slice self idx' = Ok (sr', sc') ->
                 in_slice sr' y = true -> in_slice sc' x = true ->
                 idx' = idx)
    /\ (forall idx, GeoboxTiles.in_range self idx = true ->
          exists sr sc,
            GeoboxTiles._idx_to_slice self idx = Ok (sr, sc)
            /\ 0 <= start sr /\ start sr < stop sr <= H
            /\ 0 <= start sc /\ start sc < stop sc <= W
            /\ slice_len sr
               = (if idx.1 =? (GeoboxTiles.shape self).1 - 1
                  then (if H mod th =? 0 then th else H mod th) else th)
            /\ slice_len sc
               = (if idx.2 =? (GeoboxTiles.shape self).2 - 1
                  then (if W mod tw =? 0 then tw else W mod tw) else tw)).
Proof.
  intros HH HW Hth Htw H W.
  rewrite (rounded_init_exact box th tw HH HW Hth Htw).
  apply tiling_coverage; lia.
Qed.

Lemma tiling_coverage_below_2_53_witness :
  0 < 100 < 2 ^ 53 /\ 0 < 30 < 2 ^ 53 /\
  exists self,
    Rounded.__init__ box100 (30, 30) = Ok self
    /\ GeoboxTiles.shape self = (4, 4)
    /\ exists sr sc,
         GeoboxTiles._idx_to_slice self (3, 3) = Ok (sr, sc)
         /\ slice_len sr = 10 /\ slice_len sc = 10.
Proof.
  split; [lia|]. split; [lia|].
  destruct (tiling_coverage_below_2_53 box100 30 30 ltac:(simpl; lia)
              ltac:(simpl; lia) ltac:(lia) ltac:(lia))
    as (self & Hinit & _ & _ & _ & _ & Htile).
  exists self. split; [exact Hinit|].
  rewrite rounded_init_exact, tiles100_init in Hinit by (simpl; lia).
  injection Hinit as <-.
  split; [reflexivity|].
  destruct (Htile (3, 3) eq_refl) as (sr & sc & Hs & _ & _ & _ & _ & Hr & Hc).
  exists sr, sc. split; [exact Hs|]. split; [exact Hr|exact Hc].
Defined.

(** ** [zoom_out] with whole factors *)

(** [s / factor] for an integer [s] and a whole [factor], both below
    [2^53]: the dimension [zoom_out] computes is the exact one. *)
Lemma zoom_out_dim_exact (s n ey : Z) :
  0 < s < 2 ^ 53 -> 0 < n < 2 ^ 53 -> ey <= 0 ->
  zoom_out_dim s (Binary64.mk (n * 2 ^ (- ey)) ey)
  = Ok (Z.max 1 ((s + n - 1) / n)).
Proof.
  intros Hs Hn Hey. unfold zoom_out_dim.
  destruct (of_int_exact s Hs) as (ex & Hex & Ex).
  destruct (truediv_ceil s n ex ey Hs Hn Hex Hey) as (q & Hq & Hc).
  rewrite Ex. cbn [mbind result_bind]. rewrite Hq.
  cbn [mbind result_bind Binary64.ceil]. by rewrite Hc.
Qed.

Lemma to_R_exact (n ey : Z) :
  ey <= 0 -> Binary64.to_R (Binary64.mk (n * 2 ^ (- ey)) ey) = IZR n.
Proof.
  intros Hey. unfold Binary64.to_R. cbn [Binary64.mant Binary64.expo].
  rewrite (Z.max_l 0 ey), (Z.max_r 0 (- ey)), Z.pow_0_r, Z.mul_1_r by lia.
  assert (Hs : 0 < 2 ^ (- ey)) by (apply Z.pow_pos_nonneg; lia).
  rewrite mult_IZR. field. apply not_0_IZR. lia.
Qed.

(** X6. Zooming out by the factor [1.0] gives back a box whose height and
    width are at least 1 and below [2^53]. *)
Theorem zoom_out_one (b : GeoBox.t) :
  1 <= GeoBox.height b < 2 ^ 53 -> 1 <= GeoBox.width b < 2 ^ 53 ->
  zoom_out b Binary64.one = Ok b.
Proof.
  intros HH HW. destruct b as [W H A crs]. cbn [GeoBox.height GeoBox.width] in *.
  change Binary64.one with (Binary64.mk (1 * 2 ^ (- 0)) 0).
  unfold zoom_out. cbn [GeoBox.shape GeoBox.height GeoBox.width].
  rewrite (zoom_out_dim_exact H 1 0) by lia. cbn [mbind result_bind].
  rewrite (zoom_out_dim_exact W 1 0) by lia. cbn [mbind result_bind].
  rewrite (to_R_exact 1 0) by lia.
  f_equal. apply geobox_eq; cbn [GeoBox.height GeoBox.width GeoBox.affine
    GeoBox.crs]; try reflexivity.
  - replace (W + 1 - 1) with W by lia. rewrite Z.div_1_r. lia.
  - replace (H + 1 - 1) with H by lia. rewrite Z.div_1_r. lia.
  - rewrite scale_one. apply mul_identity_r.
Qed.

Lemma zoom_out_one_witness :
  1 <= 100 < 2 ^ 53 /\ zoom_out box100 Binary64.one = Ok box100.
Proof.
  split; [lia|].
  apply (zoom_out_one box100); simpl; lia.
Defined.

(** X7. Zooming out by the float of a positive whole number [k] that
    divides both the height and the width, each below [2^53], is zooming to
    the shape [(H/k, W/k)]. *)
Theorem zoom_out_exact_is_zoom_to (b : GeoBox.t) (k : Z) :
  0 < k ->
  0 < GeoBox.height b < 2 ^ 53 -> 0 < GeoBox.width b < 2 ^ 53 ->
  (k | GeoBox.height b) -> (k | GeoBox.width b) ->
  exists fk,
    Binary64.of_int k = Ok fk
    /\ zoom_out b fk = zoom_to b (GeoBox.height b / k, GeoBox.width b / k).
Proof.
  intros Hk HH HW [m Hm] [m' Hm']. destruct b as [W H A crs].
  cbn [GeoBox.height GeoBox.width] in *. subst H W.
  assert (Hmp : 0 < m) by nia. assert (Hmp' : 0 < m') by nia.
  assert (Hk53 : k < 2 ^ 53) by nia.
  destruct (of_int_exact k ltac:(lia)) as (ey & Hey & Ey).
  eexists. split; [exact Ey|].
  rewrite !Z.div_mul by lia.
  unfold zoom_out, zoom_to, float_div.
  cbn [GeoBox.shape GeoBox.height GeoBox.width GeoBox.affine GeoBox.crs].
  rewrite (zoom_out_dim_exact (m * k) k ey) by lia. cbn [mbind result_bind].
  rewrite (zoom_out_dim_exact (m' * k) k ey) by lia. cbn [mbind result_bind].
  rewrite (to_R_exact k ey) by lia.
  destruct (Z.eqb_spec m' 0) as [?|_]; [lia|].
  destruct (Z.eqb_spec m 0) as [?|_]; [lia|]. cbn [mbind result_bind].
  assert (Em : (m * k + k - 1) / k = m)
    by (symmetry; apply Z.div_unique_pos with (r := k - 1); lia).
  assert (Em' : (m' * k + k - 1) / k = m')
    by (symmetry; apply Z.div_unique_pos with (r := k - 1); lia).
  rewrite Em, Em', !Z.max_r by lia.
  assert (Hkr : (0 < IZR k)%R) by (apply IZR_lt; lia).
  assert (Hmr : (0 < IZR m)%R) by (apply IZR_lt; lia).
  assert (Hmr' : (0 < IZR m')%R) by (apply IZR_lt; lia).
  f_equal. f_equal. f_equal. rewrite !mult_IZR. f_equal; field; lra.
Qed.

Lemma zoom_out_exact_is_zoom_to_witness :
  0 < 10 /\ 0 < 100 < 2 ^ 53 /\ (10 | 100)
  /\ exists fk,
       Binary64.of_int 10 = Ok fk
       /\ zoom_out box100 fk = zoom_to box100 (10, 10).
Proof.
  split; [lia|]. split; [lia|].
  assert (Hd : (10 | 100)) by (exists 10; reflexivity).
  split; [exact Hd|].
  exact (zoom_out_exact_is_zoom_to box100 10 ltac:(lia) ltac:(simpl; lia)
           ltac:(simpl; lia) Hd Hd).
Defined.
